(** * RAW Photo Batch Processor, frontend logic ([static/app.js])

    A shallow embedding of the event handlers of [static/app.js] as a
    deterministic transition function over one record holding the JavaScript
    [state] object, the part of the page ([elements]) the handlers write, and
    the part of the browser they talk to (timers, pending fetches, event
    sources, alerts, the console).

    Conventions of the embedding.
    - JavaScript numbers are IEEE binary64 values: Rocq's primitive [float].
    - [null] / [undefined] are [None]; truthiness tests are written out.
    - Opaque JSON payloads (preset snapshots, the reply of [/batch/start]) are
      values of [json]; the replies of [/upload] and the progress events are
      taken at the shape the handlers read ([file_id], [filename], [error],
      [done], [results], ...), file ids being strings.
    - Each [await fetch(..)] followed by [await response.json()] or
      [await response.blob()] is one suspension: the handler stops, a
      continuation ([Cont]) is parked under the request's number, and a later
      [Settle] event resumes it.  Between two events nothing interleaves
      (single-threaded event loop).
    - An object URL made by [URL.createObjectURL(blob)] is identified with the
      blob it names.
    - Text is a string of bytes, the UTF-8 encoding of the JavaScript string.
    - The rows of the file list are written as markup and their listeners
      read the id of the row back from it; the embedding follows this for
      ids and names without markup characters ([html_plain]), where the id
      read is the id written.
    - The drag handlers of the comparison slider only touch their own
      closure variable, the cursor and the slider position: they are embedded
      apart, over the record [Slide], where the other write to the slider
      position, by [updateComparisonView], is an event of its own.
    - Not embedded: the "Download All" button (it only clicks links), and
      the texts derived from a progress event (the event itself is recorded
      instead). *)

From Stdlib Require Import Floats DecimalString.
From stdpp Require Import gmap strings list fin_maps.

#[local] Set Warnings "-register-all".
#[local] Set Primitive Projections.
#[local] Open Scope string_scope.
#[local] Open Scope list_scope.
#[local] Open Scope nat_scope.

(** ** JavaScript values *)

Inductive json :=
| JNull
| JBool (b : bool)
| JNum (x : float)
| JStr (s : string)
| JArr (l : list json)
| JObj (kvs : list (string * json)).

Abbreviation Settings := (gmap string json).

(** The object [JSON.parse] builds from the members of an object literal:
    a later duplicate key overrides an earlier one. *)
Definition object_of (kvs : list (string * json)) : Settings :=
  foldl (fun m kv => <[kv.1 := kv.2]> m) ∅ kvs.

Definition index_keys (l : list json) : list (string * json) :=
  imap (fun i v => (NilZero.string_of_uint (Nat.to_uint i), v)) l.

Definition chars (s : string) : list json :=
  map (fun c => JStr (String c EmptyString)) (String.list_ascii_of_string s).

(** [{ ...v }]: the own enumerable properties of [v] (strings are spread
    character by character; the embedding is exact on ASCII strings). *)
Definition spread (v : json) : Settings :=
  match v with
  | JObj kvs => object_of kvs
  | JArr l => object_of (index_keys l)
  | JStr s => object_of (index_keys (chars s))
  | JNull | JBool _ | JNum _ => ∅
  end.

(** [v.k] for a non-index key [k] of a non-null [v]. *)
Definition prop (v : json) (k : string) : option json := spread v !! k.

(** Truthiness of a string-or-null. *)
Definition truthy (o : option string) : bool :=
  match o with
  | Some s => negb (String.eqb s "")
  | None => false
  end.

(** ** The [state] object *)

Record UploadedFile := mkFile {
  file_id : string;
  filename : string;
  selected : bool
}.

Definition Blob := nat.

Record State := mkState {
  files : list UploadedFile;
  activeFileId : option string;
  settings : Settings;
  previewDebounce : option positive;
  compareMode : bool;
  beforeImageUrl : option Blob;
  afterImageUrl : option Blob
}.


(** The literal of [state.settings]. *)
Definition initialSettings : Settings :=
  object_of
    [ ("exposure", JNum 1); ("warmth", JNum 0); ("contrast", JNum 1);
      ("shadows", JNum 0); ("highlights", JNum 0); ("clarity", JNum 0);
      ("vibrance", JNum 0); ("vignette", JNum 0); ("sharpness", JNum 1) ].

Definition initial_state : State :=
  {| files := []; activeFileId := None; settings := initialSettings;
     previewDebounce := None; compareMode := false;
     beforeImageUrl := None; afterImageUrl := None |}.

Definition set_files v (s : State) :=
  let 'mkState _ a st d c b af := s in mkState v a st d c b af.
Definition set_activeFileId v (s : State) :=
  let 'mkState f _ st d c b af := s in mkState f v st d c b af.
Definition set_settings v (s : State) :=
  let 'mkState f a _ d c b af := s in mkState f a v d c b af.
Definition set_previewDebounce v (s : State) :=
  let 'mkState f a st _ c b af := s in mkState f a st v c b af.
Definition set_compareMode v (s : State) :=
  let 'mkState f a st d _ b af := s in mkState f a st d v b af.
Definition set_beforeImageUrl v (s : State) :=
  let 'mkState f a st d c _ af := s in mkState f a st d c v af.
Definition set_afterImageUrl v (s : State) :=
  let 'mkState f a st d c b _ := s in mkState f a st d c b v.

(** ** The sliders *)

Inductive Slider :=
| exposure | warmth | contrast | shadows | highlights
| clarity | vibrance | vignette | sharpness.

Definition sliders : list Slider :=
  [exposure; warmth; contrast; shadows; highlights;
   clarity; vibrance; vignette; sharpness].

Definition slider_name (n : Slider) : string :=
  match n with
  | exposure => "exposure" | warmth => "warmth" | contrast => "contrast"
  | shadows => "shadows" | highlights => "highlights" | clarity => "clarity"
  | vibrance => "vibrance" | vignette => "vignette" | sharpness => "sharpness"
  end.

(** ** Progress events and export results *)

Record ResultEntry := mkResult {
  r_filename : string;
  r_success : bool;
  r_download_url : option string
}.

Record ProgressEvent := mkProgress {
  pe_error : option string;
  pe_current : float;
  pe_total : float;
  pe_status : string;
  pe_current_file : option string;
  pe_done : bool;
  pe_results : list ResultEntry
}.

(** ** The page: what the handlers write into [elements] *)

Inductive Display := display_unset | display_none | display_block | display_flex.

Inductive ProgressBar :=
| bar_unset
| bar_zero                          (* progressFill.style.width = '0%' *)
| bar_of (ev : ProgressEvent).      (* fill, percent, status, detail of [ev] *)

Record Toolbar := mkToolbar {
  fileCount : nat;
  btnExportSelected_disabled : bool;
  btnExportAll_disabled : bool;
  btnSelectAll_deselects : bool      (* label 'Deselect All' / 'Select All' *)
}.

Record Page := mkPage {
  previewImage_src : option Blob;
  previewImage_display : Display;
  previewPlaceholder_display : Display;
  previewLoading_display : Display;
  comparisonContainer_display : Display;
  comparisonSplit : string;          (* comparisonBefore width = comparisonSlider left *)
  beforeImage_src : option Blob;
  afterImage_src : option Blob;
  sliderValue : gmap string (option json);   (* slider.value = .. *)
  valueDisplay : gmap string float;  (* the number whose toFixed(2) is shown *)
  progressSection_display : Display;
  progressBar : ProgressBar;
  downloadSection_display : Display;
  downloadSummary : string;
  downloadLinks : list ResultEntry;
  exportFilename : string;           (* the text typed in the filename input *)
  fileList : list string;            (* the ids written into the .file-item rows *)
  toolbar : Toolbar
}.

Definition initial_page : Page :=
  {| previewImage_src := None; previewImage_display := display_unset;
     previewPlaceholder_display := display_unset;
     previewLoading_display := display_unset;
     comparisonContainer_display := display_unset; comparisonSplit := "";
     beforeImage_src := None; afterImage_src := None;
     sliderValue := ∅; valueDisplay := ∅;
     progressSection_display := display_unset; progressBar := bar_unset;
     downloadSection_display := display_unset; downloadSummary := "";
     downloadLinks := []; exportFilename := ""; fileList := [];
     toolbar := mkToolbar 0 true true false |}.

Definition set_previewImage_src v (p : Page) :=
  let 'mkPage _ a2 a3 a4 a5 a6 a7 a8 a9 a10 a11 a12 a13 a14 a15 a16 a17 a18 := p in
  mkPage v a2 a3 a4 a5 a6 a7 a8 a9 a10 a11 a12 a13 a14 a15 a16 a17 a18.
Definition set_previewImage_display v (p : Page) :=
  let 'mkPage a1 _ a3 a4 a5 a6 a7 a8 a9 a10 a11 a12 a13 a14 a15 a16 a17 a18 := p in
  mkPage a1 v a3 a4 a5 a6 a7 a8 a9 a10 a11 a12 a13 a14 a15 a16 a17 a18.
Definition set_previewPlaceholder_display v (p : Page) :=
  let 'mkPage a1 a2 _ a4 a5 a6 a7 a8 a9 a10 a11 a12 a13 a14 a15 a16 a17 a18 := p in
  mkPage a1 a2 v a4 a5 a6 a7 a8 a9 a10 a11 a12 a13 a14 a15 a16 a17 a18.
Definition set_previewLoading_display v (p : Page) :=
  let 'mkPage a1 a2 a3 _ a5 a6 a7 a8 a9 a10 a11 a12 a13 a14 a15 a16 a17 a18 := p in
  mkPage a1 a2 a3 v a5 a6 a7 a8 a9 a10 a11 a12 a13 a14 a15 a16 a17 a18.
Definition set_comparisonContainer_display v (p : Page) :=
  let 'mkPage a1 a2 a3 a4 _ a6 a7 a8 a9 a10 a11 a12 a13 a14 a15 a16 a17 a18 := p in
  mkPage a1 a2 a3 a4 v a6 a7 a8 a9 a10 a11 a12 a13 a14 a15 a16 a17 a18.
Definition set_comparisonSplit v (p : Page) :=
  let 'mkPage a1 a2 a3 a4 a5 _ a7 a8 a9 a10 a11 a12 a13 a14 a15 a16 a17 a18 := p in
  mkPage a1 a2 a3 a4 a5 v a7 a8 a9 a10 a11 a12 a13 a14 a15 a16 a17 a18.
Definition set_beforeImage_src v (p : Page) :=
  let 'mkPage a1 a2 a3 a4 a5 a6 _ a8 a9 a10 a11 a12 a13 a14 a15 a16 a17 a18 := p in
  mkPage a1 a2 a3 a4 a5 a6 v a8 a9 a10 a11 a12 a13 a14 a15 a16 a17 a18.
Definition set_afterImage_src v (p : Page) :=
  let 'mkPage a1 a2 a3 a4 a5 a6 a7 _ a9 a10 a11 a12 a13 a14 a15 a16 a17 a18 := p in
  mkPage a1 a2 a3 a4 a5 a6 a7 v a9 a10 a11 a12 a13 a14 a15 a16 a17 a18.
Definition set_sliderValue v (p : Page) :=
  let 'mkPage a1 a2 a3 a4 a5 a6 a7 a8 _ a10 a11 a12 a13 a14 a15 a16 a17 a18 := p in
  mkPage a1 a2 a3 a4 a5 a6 a7 a8 v a10 a11 a12 a13 a14 a15 a16 a17 a18.
Definition set_valueDisplay v (p : Page) :=
  let 'mkPage a1 a2 a3 a4 a5 a6 a7 a8 a9 _ a11 a12 a13 a14 a15 a16 a17 a18 := p in
  mkPage a1 a2 a3 a4 a5 a6 a7 a8 a9 v a11 a12 a13 a14 a15 a16 a17 a18.
Definition set_progressSection_display v (p : Page) :=
  let 'mkPage a1 a2 a3 a4 a5 a6 a7 a8 a9 a10 _ a12 a13 a14 a15 a16 a17 a18 := p in
  mkPage a1 a2 a3 a4 a5 a6 a7 a8 a9 a10 v a12 a13 a14 a15 a16 a17 a18.
Definition set_progressBar v (p : Page) :=
  let 'mkPage a1 a2 a3 a4 a5 a6 a7 a8 a9 a10 a11 _ a13 a14 a15 a16 a17 a18 := p in
  mkPage a1 a2 a3 a4 a5 a6 a7 a8 a9 a10 a11 v a13 a14 a15 a16 a17 a18.
Definition set_downloadSection_display v (p : Page) :=
  let 'mkPage a1 a2 a3 a4 a5 a6 a7 a8 a9 a10 a11 a12 _ a14 a15 a16 a17 a18 := p in
  mkPage a1 a2 a3 a4 a5 a6 a7 a8 a9 a10 a11 a12 v a14 a15 a16 a17 a18.
Definition set_downloadSummary v (p : Page) :=
  let 'mkPage a1 a2 a3 a4 a5 a6 a7 a8 a9 a10 a11 a12 a13 _ a15 a16 a17 a18 := p in
  mkPage a1 a2 a3 a4 a5 a6 a7 a8 a9 a10 a11 a12 a13 v a15 a16 a17 a18.
Definition set_downloadLinks v (p : Page) :=
  let 'mkPage a1 a2 a3 a4 a5 a6 a7 a8 a9 a10 a11 a12 a13 a14 _ a16 a17 a18 := p in
  mkPage a1 a2 a3 a4 a5 a6 a7 a8 a9 a10 a11 a12 a13 a14 v a16 a17 a18.
Definition set_exportFilename v (p : Page) :=
  let 'mkPage a1 a2 a3 a4 a5 a6 a7 a8 a9 a10 a11 a12 a13 a14 a15 _ a17 a18 := p in
  mkPage a1 a2 a3 a4 a5 a6 a7 a8 a9 a10 a11 a12 a13 a14 a15 v a17 a18.
Definition set_fileList v (p : Page) :=
  let 'mkPage a1 a2 a3 a4 a5 a6 a7 a8 a9 a10 a11 a12 a13 a14 a15 a16 _ a18 := p in
  mkPage a1 a2 a3 a4 a5 a6 a7 a8 a9 a10 a11 a12 a13 a14 a15 a16 v a18.
Definition set_toolbar v (p : Page) :=
  let 'mkPage a1 a2 a3 a4 a5 a6 a7 a8 a9 a10 a11 a12 a13 a14 a15 a16 a17 _ := p in
  mkPage a1 a2 a3 a4 a5 a6 a7 a8 a9 a10 a11 a12 a13 a14 a15 a16 a17 v.

(** ** The browser *)

Inductive Request :=
| POST_upload (file : string)
| GET_preview (fileId : option string) (params : Settings)
| GET_preset (name : string)
| POST_batch_start (file_ids : list string) (body_settings : Settings)
                   (custom_filename : option string)
| DELETE_file (fileId : string).

(** Where a suspended handler resumes. *)
Inductive BeforeCaller := FromPreview | FromCompareToggle.
Inductive PresetButton := LandscapeLighting | Reset.

Inductive Cont :=
| KUpload (rest : list string)       (* uploadFile, then the rest of handleFiles *)
| KPreview                           (* the debounced callback of updatePreview *)
| KBefore (caller : BeforeCaller)    (* loadBeforeImage, then its caller *)
| KPreset (button : PresetButton)
| KBatchStart
| KDelete (fileId : string).

(** How a fetch settles.  [Rejected] stands for a rejection of [fetch],
    [response.json()] or [response.blob()]; the others are a response whose
    body was read, with [response.ok] where the handler may look at it. *)
Inductive Result :=
| Rejected (message : string)
| Uploaded (id name : string)        (* /upload, response.ok: {file_id, filename} *)
| UploadRefused (error : string)     (* /upload, !response.ok: {error} *)
| Image (ok : bool) (blob : Blob)
| Json (ok : bool) (body : json)
| Deleted.                           (* DELETE resolved, whatever its status *)

Record EventSource := mkSource {
  es_batchId : option json;          (* interpolated into /batch/progress/.. *)
  es_open : bool                     (* readyState is not CLOSED *)
}.

Record Browser := mkBrowser {
  clock : nat;                       (* milliseconds *)
  timers : list (positive * nat);    (* live timeouts: handle and due time *)
  nextTimer : positive;
  requests : list Request;           (* every fetch issued, oldest first *)
  pending : gmap nat Cont;           (* by position in [requests] *)
  sources : list EventSource;
  alerts : list string;
  console : list string
}.

Definition initial_browser : Browser :=
  {| clock := 0; timers := []; nextTimer := 1%positive; requests := [];
     pending := ∅; sources := []; alerts := []; console := [] |}.

Definition set_clock v (b : Browser) :=
  let 'mkBrowser _ t n r p s a c := b in mkBrowser v t n r p s a c.
Definition set_timers v (b : Browser) :=
  let 'mkBrowser k _ n r p s a c := b in mkBrowser k v n r p s a c.
Definition set_nextTimer v (b : Browser) :=
  let 'mkBrowser k t _ r p s a c := b in mkBrowser k t v r p s a c.
Definition set_requests v (b : Browser) :=
  let 'mkBrowser k t n _ p s a c := b in mkBrowser k t n v p s a c.
Definition set_pending v (b : Browser) :=
  let 'mkBrowser k t n r _ s a c := b in mkBrowser k t n r v s a c.
Definition set_sources v (b : Browser) :=
  let 'mkBrowser k t n r p _ a c := b in mkBrowser k t n r p v a c.
Definition set_alerts v (b : Browser) :=
  let 'mkBrowser k t n r p s _ c := b in mkBrowser k t n r p s v c.
Definition set_console v (b : Browser) :=
  let 'mkBrowser k t n r p s a _ := b in mkBrowser k t n r p s a v.

Record World := mkWorld {
  state : State;
  page : Page;
  browser : Browser
}.

Definition on_state (f : State -> State) (w : World) : World :=
  mkWorld (f (state w)) (page w) (browser w).
Definition on_page (f : Page -> Page) (w : World) : World :=
  mkWorld (state w) (f (page w)) (browser w).
Definition on_browser (f : Browser -> Browser) (w : World) : World :=
  mkWorld (state w) (page w) (f (browser w)).

Definition initial_world : World :=
  mkWorld initial_state initial_page initial_browser.

(** *** Browser services *)

Definition fetch (r : Request) (k : Cont) (w : World) : World :=
  on_browser (fun b =>
    set_pending (<[length (requests b) := k]> (pending b))
      (set_requests (requests b ++ [r]) b)) w.

Definition setTimeout (delay : nat) (w : World) : positive * World :=
  (nextTimer (browser w),
   on_browser (fun b =>
     set_nextTimer (Pos.succ (nextTimer b))
       (set_timers (timers b ++ [(nextTimer b, clock b + delay)]) b)) w).

Definition clearTimeout (id : positive) (w : World) : World :=
  on_browser (fun b => set_timers (filter (fun t => t.1 ≠ id) (timers b)) b) w.

Definition alert (text : string) (w : World) : World :=
  on_browser (fun b => set_alerts (alerts b ++ [text]) b) w.

Definition console_error (text : string) (w : World) : World :=
  on_browser (fun b => set_console (console b ++ [text]) b) w.

Definition newEventSource (batchId : option json) (w : World) : World :=
  on_browser (fun b => set_sources (sources b ++ [mkSource batchId true]) b) w.

Definition close (src : nat) (w : World) : World :=
  on_browser (fun b =>
    set_sources (alter (fun s => mkSource (es_batchId s) false) src (sources b)) b) w.

(** ** The handlers of [app.js] *)

Definition showPreviewLoading (show : bool) (w : World) : World :=
  on_page (set_previewLoading_display (if show then display_flex else display_none)) w.

Definition updateComparisonView (w : World) : World :=
  if compareMode (state w) && truthy (activeFileId (state w)) then
    on_page (fun p =>
      set_comparisonSplit "50%"
        (set_comparisonContainer_display display_block
          (set_previewImage_display display_none p))) w
  else
    let w1 := on_page (set_comparisonContainer_display display_none) w in
    if truthy (activeFileId (state w1))
    then on_page (set_previewImage_display display_block) w1
    else w1.

(** [updatePreview]: the synchronous part, which (re)arms the 300 ms timer. *)
Definition updatePreview (w : World) : World :=
  if negb (truthy (activeFileId (state w))) then w
  else
    let w1 := match previewDebounce (state w) with
              | Some id => clearTimeout id w
              | None => w
              end in
    let '(id, w2) := setTimeout 300 w1 in
    on_state (set_previewDebounce (Some id)) w2.

(** The callback given to [setTimeout], up to its [await fetch(afterUrl)]. *)
Definition previewTimerFired (w : World) : World :=
  let w1 := showPreviewLoading true w in
  fetch (GET_preview (activeFileId (state w1)) (settings (state w1))) KPreview w1.

(** What the caller of [loadBeforeImage] does once it has returned. *)
Definition afterBefore (caller : BeforeCaller) (w : World) : World :=
  match caller with
  | FromPreview => showPreviewLoading false (updateComparisonView w)
  | FromCompareToggle => updateComparisonView (showPreviewLoading false w)
  end.

(** The constant [defaultSettings] of [loadBeforeImage]. *)
Definition defaultSettings : Settings :=
  object_of
    [ ("exposure", JNum 1); ("warmth", JNum 0); ("contrast", JNum 1);
      ("shadows", JNum 0); ("highlights", JNum 0); ("clarity", JNum 0);
      ("vibrance", JNum 0); ("vignette", JNum 0); ("sharpness", JNum 1) ].

Definition loadBeforeImage (caller : BeforeCaller) (w : World) : World :=
  if negb (truthy (activeFileId (state w))) then afterBefore caller w
  else fetch (GET_preview (activeFileId (state w)) defaultSettings) (KBefore caller) w.

Definition loadBeforeImage_settled (caller : BeforeCaller) (r : Result) (w : World) : World :=
  let w1 := match r with
            | Image true blob =>
                on_page (set_beforeImage_src (Some blob))
                  (on_state (set_beforeImageUrl (Some blob)) w)
            | Rejected _ => console_error "Failed to load before image:" w
            | _ => w
            end in
  afterBefore caller w1.

Definition updatePreview_settled (r : Result) (w : World) : World :=
  match r with
  | Image true blob =>
      let w1 := on_page (fun p =>
                  set_previewPlaceholder_display display_none
                    (set_previewImage_display
                       (if compareMode (state w) then display_none else display_block)
                       (set_previewImage_src (Some blob) p))) w in
      let w2 := on_page (set_afterImage_src (Some blob))
                  (on_state (set_afterImageUrl (Some blob)) w1) in
      if compareMode (state w2) && negb (bool_decide (is_Some (beforeImageUrl (state w2))))
      then loadBeforeImage FromPreview w2
      else afterBefore FromPreview w2
  | Rejected _ => showPreviewLoading false (console_error "Preview failed:" w)
  | _ => showPreviewLoading false w
  end.

(** [updateFileList] writes the rows as markup, ids and names interpolated
    as they are, and each listener reads the id of its row back from the
    markup ([item.dataset.id]).  [fileList] records the ids written, in
    order; they are the ids read back when ids and names hold no markup
    character (see [html_plain]).  What the parser makes of other ids and
    names is not followed. *)
Definition updateFileList (w : World) : World :=
  on_page (set_fileList (map file_id (files (state w)))) w.

Definition every_selected (fs : list UploadedFile) : bool := forallb selected fs.

Definition updateUI (w : World) : World :=
  let w1 := updateFileList w in
  let fs := files (state w1) in
  let selectedCount := length (List.filter selected fs) in
  on_page (set_toolbar
    {| fileCount := length fs;
       btnExportSelected_disabled := Nat.eqb selectedCount 0;
       btnExportAll_disabled := Nat.eqb (length fs) 0;
       btnSelectAll_deselects := Nat.ltb 0 (length fs) && every_selected fs |}) w1.

Definition selectFile (fileId : string) (w : World) : World :=
  updateFileList
    (updatePreview
       (on_state (fun s => set_beforeImageUrl None (set_activeFileId (Some fileId) s)) w)).

(** [uploadFile] after its awaits. *)
Definition uploadFile_settled (r : Result) (w : World) : World :=
  match r with
  | Uploaded id name =>
      let w1 := on_state (fun s => set_files (files s ++ [mkFile id name true]) s) w in
      if negb (truthy (activeFileId (state w1))) then selectFile id w1 else w1
  | UploadRefused error => alert ("Upload failed: " +:+ error) w
  | Rejected message => alert ("Upload failed: " +:+ message) w
  | _ => w
  end.

(** [handleFiles]: one upload at a time, then [updateUI]. *)
Definition handleFiles (fs : list string) (w : World) : World :=
  match fs with
  | [] => updateUI w
  | file :: rest => fetch (POST_upload file) (KUpload rest) w
  end.

(** The 'input' listener installed by [setupSliders]; [value] is
    [parseFloat(slider.value)]. *)
Definition slider_input (name : Slider) (value : float) (w : World) : World :=
  let w1 := on_state (fun s =>
              set_settings (<[slider_name name := JNum value]> (settings s)) s) w in
  let w2 := on_page (fun p =>
              set_valueDisplay (<[slider_name name := value]> (valueDisplay p)) p) w1 in
  updatePreview w2.

(** [updateSlidersFromSettings]; the flag tells that [value.toFixed] threw a
    TypeError, which ends the loop at that slider. *)
Fixpoint updateSliders (names : list Slider) (st : Settings) (p : Page) : Page * bool :=
  match names with
  | [] => (p, false)
  | name :: rest =>
      let value := st !! slider_name name in
      let p1 := set_sliderValue (<[slider_name name := value]> (sliderValue p)) p in
      match value with
      | Some (JNum x) =>
          updateSliders rest st
            (set_valueDisplay (<[slider_name name := x]> (valueDisplay p1)) p1)
      | _ => (p1, true)
      end
  end.

#[global] Arguments updateSliders : simpl never.

Definition updateSlidersFromSettings (w : World) : World * bool :=
  let '(p, threw) := updateSliders sliders (settings (state w)) (page w) in
  (on_page (fun _ => p) w, threw).

(** The click listeners of the two preset buttons, after their awaits. *)
Definition preset_settled (button : PresetButton) (r : Result) (w : World) : World :=
  let failed := console_error
                  match button with
                  | LandscapeLighting => "Failed to load preset:"
                  | Reset => "Failed to reset:"
                  end in
  match r with
  | Json _ preset =>
      let w1 := on_state (set_settings (spread preset)) w in
      let '(w2, threw) := updateSlidersFromSettings w1 in
      if threw then failed w2 else updatePreview w2
  | Rejected _ => failed w
  | _ => w
  end.

Definition preset_url (button : PresetButton) : string :=
  match button with
  | LandscapeLighting => "landscape-lighting"
  | Reset => "default"
  end.

Definition select_all_click (w : World) : World :=
  let allSelected := every_selected (files (state w)) in
  updateUI (on_state (fun s =>
    set_files (map (fun f => mkFile (file_id f) (filename f) (negb allSelected)) (files s)) s) w).

(** [const file = state.files.find(f => f.file_id === fileId);
    if (file) file.selected = checked]. *)
Fixpoint set_first_selected (fileId : string) (checked : bool) (fs : list UploadedFile)
  : list UploadedFile :=
  match fs with
  | [] => []
  | f :: rest =>
      if decide (file_id f = fileId)
      then mkFile (file_id f) (filename f) checked :: rest
      else f :: set_first_selected fileId checked rest
  end.

(** The 'change' listener of the checkbox of a row, [fileId] being the id
    the row carries: [find] answers the first file with that id, or
    [undefined], and then no flag is set. *)
Definition checkbox_change (fileId : string) (checked : bool) (w : World) : World :=
  updateUI (on_state (fun s =>
    set_files (set_first_selected fileId checked (files s)) s) w).

(** Text is kept in its UTF-8 encoding: [utf8] makes a text of its bytes. *)
Definition utf8 (bytes : list nat) : string :=
  String.string_of_list_ascii (map Ascii.ascii_of_nat bytes).

(** The white space and line terminator code points that
    [String.prototype.trim] strips: TAB, LF, VT, FF, CR, SP, U+00A0, U+1680,
    U+2000 to U+200A, U+2028, U+2029, U+202F, U+205F, U+3000 and U+FEFF. *)
Definition white_space : list string :=
  Eval vm_compute in map utf8
    [ [9]; [10]; [11]; [12]; [13]; [32];
      [194; 160];
      [225; 154; 128];
      [226; 128; 128]; [226; 128; 129]; [226; 128; 130]; [226; 128; 131];
      [226; 128; 132]; [226; 128; 133]; [226; 128; 134]; [226; 128; 135];
      [226; 128; 136]; [226; 128; 137]; [226; 128; 138];
      [226; 128; 168]; [226; 128; 169]; [226; 128; 175];
      [226; 129; 159];
      [227; 128; 128];
      [239; 187; 191] ].

(** [Some rest] when [s] is [p] followed by [rest]. *)
Fixpoint strip_prefix (p s : string) : option string :=
  match p with
  | EmptyString => Some s
  | String a p' =>
      match s with
      | String b s' => if Ascii.eqb a b then strip_prefix p' s' else None
      | EmptyString => None
      end
  end.

(** [Some rest] when [s] starts with a white space code point. *)
Definition strip_space (s : string) : option string :=
  head (omap (fun c => strip_prefix c s) white_space).

Fixpoint trim_start_from (fuel : nat) (s : string) : string :=
  match fuel with
  | 0 => s
  | S fuel' =>
      match strip_space s with
      | Some rest => trim_start_from fuel' rest
      | None => s
      end
  end.

Definition trim_start (s : string) : string := trim_start_from (String.length s) s.

Definition all_space (s : string) : bool := String.eqb (trim_start s) "".

Fixpoint trim_end (s : string) : string :=
  match s with
  | EmptyString => EmptyString
  | String c rest => if all_space s then EmptyString else String c (trim_end rest)
  end.

(** [String.prototype.trim]. *)
Definition trim (s : string) : string := trim_end (trim_start s).

Definition getCustomFilename (w : World) : option string :=
  let input := trim (exportFilename (page w)) in
  if String.eqb input "" then None else Some input.

(** [startBatchExport] up to its [await fetch('/batch/start', ..)]. *)
Definition startBatchExport (fileIds : list string) (w : World) : World :=
  let w1 := on_page (fun p =>
              set_progressBar bar_zero
                (set_downloadSection_display display_none
                  (set_progressSection_display display_block p))) w in
  fetch (POST_batch_start fileIds (settings (state w1)) (getCustomFilename w1))
        KBatchStart w1.

Definition monitorBatchProgress (batchId : option json) (w : World) : World :=
  newEventSource batchId w.

(** The message of the TypeError raised by destructuring [null].  Its
    wording is the engine's; this is the one of V8. *)
Definition destructure_null : string :=
  "Cannot destructure property 'batch_id' of '(intermediate value)' as it is null.".

Definition startBatchExport_settled (r : Result) (w : World) : World :=
  let failed message w :=
    on_page (set_progressSection_display display_none)
      (alert ("Batch export failed: " +:+ message) w) in
  match r with
  | Json _ JNull => failed destructure_null w
  | Json _ body => monitorBatchProgress (prop body "batch_id") w
  | Rejected message => failed message w
  | _ => w
  end.

Definition string_of_nat (n : nat) : string := NilZero.string_of_uint (Nat.to_uint n).

Definition showDownloadResults (results : list ResultEntry) (w : World) : World :=
  let successCount := length (List.filter r_success results) in
  on_page (fun p =>
    set_downloadLinks results
      (set_downloadSummary
         (string_of_nat successCount +:+ " of " +:+ string_of_nat (length results)
            +:+ " files processed successfully")
         (set_downloadSection_display display_block p))) w.

(** [eventSource.onmessage] of [monitorBatchProgress], [data] being the
    parsed [event.data]. *)
Definition onmessage (src : nat) (data : ProgressEvent) (w : World) : World :=
  if truthy (pe_error data) then
    on_page (set_progressSection_display display_none)
      (alert (default "" (pe_error data)) (close src w))
  else
    let w1 := on_page (set_progressBar (bar_of data)) w in
    if pe_done data
    then showDownloadResults (pe_results data) (close src w1)
    else w1.

(** [eventSource.onerror]. *)
Definition onerror (src : nat) (w : World) : World := close src w.

(** [deleteFile] after [await fetch(.., { method: 'DELETE' })]. *)
Definition deleteFile_settled (fileId : string) (r : Result) (w : World) : World :=
  match r with
  | Deleted =>
      let w1 := on_state (fun s =>
                  set_files (filter (fun f => file_id f ≠ fileId) (files s)) s) w in
      let w2 :=
        if decide (activeFileId (state w1) = Some fileId) then
          let next := match files (state w1) with
                      | f :: _ => Some (file_id f)
                      | [] => None
                      end in
          let w' := on_state (fun s => set_beforeImageUrl None (set_activeFileId next s)) w1 in
          if truthy next then updatePreview w'
          else on_page (fun p =>
                 set_previewPlaceholder_display display_block
                   (set_comparisonContainer_display display_none
                     (set_previewImage_display display_none p))) w'
        else w1 in
      updateUI w2
  | Rejected _ => console_error "Delete failed:" w
  | _ => w
  end.

(** The 'change' listener of the compare toggle. *)
Definition compare_toggle (checked : bool) (w : World) : World :=
  let w1 := on_state (set_compareMode checked) w in
  if compareMode (state w1) && truthy (activeFileId (state w1)) then
    if negb (bool_decide (is_Some (beforeImageUrl (state w1))))
    then loadBeforeImage FromCompareToggle (showPreviewLoading true w1)
    else updateComparisonView w1
  else updateComparisonView w1.

(** ** Events and the transition function *)

Inductive Event :=
| SliderInput (name : Slider) (value : float)
| ClickPreset (button : PresetButton)
| ClickSelectAll
| ClickExportSelected
| ClickExportAll
| TypeExportFilename (text : string)
| CompareToggle (checked : bool)
| ChooseFiles (fs : list string)         (* file input 'change', or 'drop' *)
| ClickFilename (fileId : string)        (* on a rendered row *)
| CheckboxChange (fileId : string) (checked : bool)
| ClickDelete (fileId : string)
| Elapse (ms : nat)                      (* time passes; due timers fire *)
| Settle (req : nat) (r : Result)        (* the fetch numbered [req] settles *)
| SseMessage (src : nat) (data : ProgressEvent)
| SseError (src : nat).

(** The results a suspended handler can be resumed with. *)
Definition answers (k : Cont) (r : Result) : bool :=
  match k, r with
  | _, Rejected _ => true
  | KUpload _, (Uploaded _ _ | UploadRefused _) => true
  | (KPreview | KBefore _), Image _ _ => true
  | (KPreset _ | KBatchStart), Json _ _ => true
  | KDelete _, Deleted => true
  | _, _ => false
  end.

Definition resume (k : Cont) (r : Result) (w : World) : World :=
  match k with
  | KUpload rest => handleFiles rest (uploadFile_settled r w)
  | KPreview => updatePreview_settled r w
  | KBefore caller => loadBeforeImage_settled caller r w
  | KPreset button => preset_settled button r w
  | KBatchStart => startBatchExport_settled r w
  | KDelete fileId => deleteFile_settled fileId r w
  end.

Definition settle (req : nat) (r : Result) (w : World) : World :=
  match pending (browser w) !! req with
  | Some k =>
      if answers k r
      then resume k r (on_browser (fun b => set_pending (delete req (pending b)) b) w)
      else w
  | None => w
  end.

(** Time advances by [ms]; every timeout that is due runs, oldest first. *)
Definition elapse (ms : nat) (w : World) : World :=
  let now := clock (browser w) + ms in
  let due := filter (fun t => t.2 ≤ now) (timers (browser w)) in
  let w1 := on_browser (fun b =>
              set_timers (filter (fun t => ¬ t.2 ≤ now) (timers b)) (set_clock now b)) w in
  foldl (fun w' _ => previewTimerFired w') w1 due.

Definition rendered (fileId : string) (w : World) : bool :=
  bool_decide (fileId ∈ fileList (page w)).

Definition export_click (all : bool) (w : World) : World :=
  let chosen := if all then files (state w) else List.filter selected (files (state w)) in
  let ids := map file_id chosen in
  if Nat.ltb 0 (length ids) then startBatchExport ids w else w.

Definition is_open (src : nat) (w : World) : bool :=
  match sources (browser w) !! src with
  | Some s => es_open s
  | None => false
  end.

Definition step (e : Event) (w : World) : World :=
  match e with
  | SliderInput name value => slider_input name value w
  | ClickPreset button => fetch (GET_preset (preset_url button)) (KPreset button) w
  | ClickSelectAll => select_all_click w
  | ClickExportSelected => export_click false w
  | ClickExportAll => export_click true w
  | TypeExportFilename text => on_page (set_exportFilename text) w
  | CompareToggle checked => compare_toggle checked w
  | ChooseFiles fs => handleFiles fs w
  | ClickFilename fileId => if rendered fileId w then selectFile fileId w else w
  | CheckboxChange fileId checked =>
      if rendered fileId w then checkbox_change fileId checked w else w
  | ClickDelete fileId =>
      if rendered fileId w then fetch (DELETE_file fileId) (KDelete fileId) w else w
  | Elapse ms => elapse ms w
  | Settle req r => settle req r w
  | SseMessage src data => if is_open src w then onmessage src data w else w
  | SseError src => if is_open src w then onerror src w else w
  end.

Fixpoint run (evs : list Event) (w : World) : World :=
  match evs with
  | [] => w
  | e :: rest => run rest (step e w)
  end.

(** [init()] installs the listeners; the world it leaves is [initial_world]. *)
Definition init : World := initial_world.

Inductive reachable : World -> Prop :=
| reachable_init : reachable init
| reachable_step e w : reachable w -> reachable (step e w).

(** ** Vocabulary of the properties *)

Definition active (w : World) : option string := activeFileId (state w).

Definition ids (w : World) : list string := map file_id (files (state w)).

(** The active file is [null] or a file of the registry; every rendered row
    belongs to a file of the registry. *)
Definition active_in_registry (w : World) : Prop :=
  ∀ a, active w = Some a → a ∈ ids w.

Definition registry_ok (w : World) : Prop :=
  active_in_registry w ∧ ∀ i, i ∈ fileList (page w) → i ∈ ids w.

(** Text that the markup of the file list gives back as it is: no character
    that ends an attribute value (the double quote), opens a character
    reference ([&]) or a tag ([<], and [>] with it), and no control
    character. *)
Definition html_plain_char (c : Ascii.ascii) : bool :=
  let n := Ascii.nat_of_ascii c in
  Nat.leb 32 n && negb (existsb (Nat.eqb n) [34; 38; 60; 62; 127]).

Definition html_plain (s : string) : bool :=
  forallb html_plain_char (String.list_ascii_of_string s).

(** The events that bring no markup character into the registry: every
    event but an upload reply whose id or name is not plain. *)
Definition plain_event (e : Event) : bool :=
  match e with
  | Settle _ (Uploaded id name) => html_plain id && html_plain name
  | _ => true
  end.

(** The states reached by such events only. *)
Inductive plain_reachable : World -> Prop :=
| plain_reachable_init : plain_reachable init
| plain_reachable_step e w :
    plain_reachable w -> plain_event e = true -> plain_reachable (step e w).

(** The only live timeout, if any, is the one [state.previewDebounce] names. *)
Definition timers_ok (w : World) : Prop :=
  timers (browser w) = [] ∨
  ∃ id due, timers (browser w) = [(id, due)] ∧ previewDebounce (state w) = Some id.

(** A burst of slider moves: a first move, then moves each preceded by the
    time elapsed since the previous one. *)
Definition Move : Type := Slider * float.

Definition burst (first : Move) (rest : list (nat * Move)) : list Event :=
  SliderInput first.1 first.2 ::
  flat_map (fun gm => [Elapse gm.1; SliderInput gm.2.1 gm.2.2]) rest.

Definition moved (st : Settings) (moves : list Move) : Settings :=
  foldl (fun st' m => <[slider_name m.1 := JNum m.2]> st') st moves.

(** What a progress event makes [onmessage] do. *)
Inductive Outcome := Progressed | Failed | Complete.

Definition outcome (data : ProgressEvent) : Outcome :=
  if truthy (pe_error data) then Failed
  else if pe_done data then Complete else Progressed.

(** The outcomes of the messages of source [src] that [onmessage] handles
    along a run. *)
Fixpoint processed (src : nat) (evs : list Event) (w : World) : list Outcome :=
  match evs with
  | [] => []
  | e :: rest =>
      match e with
      | SseMessage s data =>
          if Nat.eqb s src && is_open src w then [outcome data] else []
      | _ => []
      end ++ processed src rest (step e w)
  end.

Definition is_closed (src : nat) (w : World) : Prop :=
  ∃ batchId, sources (browser w) !! src = Some (mkSource batchId false).

(** The events that reset [state.beforeImageUrl]: a call of [selectFile]
    (a click on a rendered file name, or the upload that finds no active
    file), and the deletion of the active file. *)
Definition resets_before (e : Event) (w : World) : Prop :=
  match e with
  | ClickFilename fileId => rendered fileId w = true
  | Settle req (Uploaded _ _) =>
      (∃ rest, pending (browser w) !! req = Some (KUpload rest)) ∧
      truthy (active w) = false
  | Settle req Deleted =>
      ∃ fileId, pending (browser w) !! req = Some (KDelete fileId) ∧
                active w = Some fileId
  | _ => False
  end.

(** A valid range, as a slider declares one ([min], [max]). The page that
    declares them is not part of [app.js], which never reads them. *)
Record Range := mkRange { range_min : float; range_max : float }.

Definition in_range (r : Range) (v : option json) : bool :=
  match v with
  | Some (JNum x) => PrimFloat.leb (range_min r) x && PrimFloat.leb x (range_max r)
  | _ => false
  end.

(** Sample runs. *)
Definition one_file : list Event :=
  [ChooseFiles ["a.raw"]; Settle 0 (Uploaded "f1" "a.raw")].

Definition two_files : list Event :=
  [ChooseFiles ["a.raw"; "b.raw"]; Settle 0 (Uploaded "f1" "a.raw");
   Settle 1 (Uploaded "f2" "b.raw")].

Definition three_files : list Event :=
  [ChooseFiles ["a.raw"; "b.raw"; "c.raw"]; Settle 0 (Uploaded "f1" "a.raw");
   Settle 1 (Uploaded "f2" "b.raw"); Settle 2 (Uploaded "f3" "c.raw")].

(** Two preview fetches for the same file: request 1 (default settings) is
    issued before request 2 (exposure 1.5). *)
Definition two_previews : list Event :=
  one_file ++ [Elapse 300; SliderInput exposure 1.5; Elapse 300].

(** A complete settings snapshot, as a preset endpoint sends one. *)
Definition snapshot (exposure_value : float) : json :=
  JObj [ ("exposure", JNum exposure_value); ("warmth", JNum 0);
         ("contrast", JNum 1); ("shadows", JNum 0); ("highlights", JNum 0);
         ("clarity", JNum 0); ("vibrance", JNum 0); ("vignette", JNum 0);
         ("sharpness", JNum 1) ].

(** The debounce timer has just been (re)armed. *)
Definition armed (w : World) : Prop :=
  ∃ id, timers (browser w) = [(id, clock (browser w) + 300)] ∧
        previewDebounce (state w) = Some id.

#[local] Instance Outcome_eq_dec : EqDecision Outcome.
Proof. solve_decision. Defined.

(** One file uploaded and an export of all files started as batch "b1":
    request 1 is the job creation, source 0 its progress stream. *)
Definition export_running : list Event :=
  one_file ++ [ClickExportAll; Settle 1 (Json true (JObj [("batch_id", JStr "b1")]))].

Definition failure_event : ProgressEvent :=
  mkProgress (Some "disk full") 1 3 "error" None false [].

Definition done_event : ProgressEvent :=
  mkProgress None 3 3 "complete" None true
    [mkResult "a.jpg" true (Some "/download/a.jpg");
     mkResult "b.jpg" true (Some "/download/b.jpg");
     mkResult "c.jpg" false None].

(** The job creation is answered with a non-success status and an error
    body. *)
Definition refused_start : list Event :=
  one_file ++
  [ClickExportAll; Settle 1 (Json false (JObj [("error", JStr "Unknown file")]))].

(** The defaults endpoint answers with a non-success status and an error
    body. *)
Definition failed_reset : list Event :=
  [ClickPreset Reset;
   Settle 0 (Json false (JObj [("error", JStr "Internal Server Error")]))].

(** Compare mode entered on the only file, its baseline (blob 7) received:
    request 1 is the baseline fetch. *)
Definition compare_cached : list Event :=
  one_file ++ [CompareToggle true; Settle 1 (Image true 7)].

(** ** Vocabulary of further properties *)

(** The replies a pending upload can be resumed with. *)
Definition is_upload_result (r : Result) : bool :=
  match r with
  | Rejected _ | Uploaded _ _ | UploadRefused _ => true
  | _ => false
  end.

(** The uploads of one [handleFiles] call settle in turn: the i-th upload is
    request [first + i]. *)
Definition upload_settles (first : nat) (rs : list Result) : list Event :=
  imap (fun i r => Settle (first + i) r) rs.

Definition accepted (rs : list Result) : list UploadedFile :=
  omap (fun r => match r with
                 | Uploaded id name => Some (mkFile id name true)
                 | _ => None
                 end) rs.

Definition upload_alerts (rs : list Result) : list string :=
  omap (fun r => match r with
                 | UploadRefused error => Some ("Upload failed: " +:+ error)
                 | Rejected message => Some ("Upload failed: " +:+ message)
                 | _ => None
                 end) rs.

(** Text made of white space only. *)
Inductive white_text : string -> Prop :=
| white_text_nil : white_text ""
| white_text_cons c rest :
    c ∈ white_space -> white_text rest -> white_text (c +:+ rest).

(** What kind of request a suspended handler waits for. *)
Definition matches (k : Cont) (r : Request) : Prop :=
  match k, r with
  | KUpload _, POST_upload _ => True
  | KPreview, GET_preview _ _ => True
  | KBefore _, GET_preview _ params => params = defaultSettings
  | KPreset button, GET_preset name => name = preset_url button
  | KBatchStart, POST_batch_start _ _ _ => True
  | KDelete fileId, DELETE_file fileId' => fileId' = fileId
  | _, _ => False
  end.

(** Every suspended handler waits for a request of the log, of its kind. *)
Definition pending_ok (w : World) : Prop :=
  ∀ req k, pending (browser w) !! req = Some k →
           ∃ r, requests (browser w) !! req = Some r ∧ matches k r.

(** The comparison view is on the page only in compare mode and with the
    plain preview hidden. *)
Definition views_ok (w : World) : Prop :=
  comparisonContainer_display (page w) = display_block →
  previewImage_display (page w) = display_none ∧ compareMode (state w) = true.

(** Slider moves and waits, as a user without a file can make them. *)
Inductive Idle := IdleMove (name : Slider) (value : float) | IdleWait (ms : nat).

Definition idle_event (i : Idle) : Event :=
  match i with
  | IdleMove name value => SliderInput name value
  | IdleWait ms => Elapse ms
  end.

Definition idle_settings (st : Settings) (i : Idle) : Settings :=
  match i with
  | IdleMove name value => <[slider_name name := JNum value]> st
  | IdleWait _ => st
  end.

(** The requests parked before a handler ran are still parked after it. *)
Definition old_kept (w w' : World) : Prop :=
  length (requests (browser w)) ≤ length (requests (browser w')) ∧
  ∀ req, req < length (requests (browser w)) →
         pending (browser w') !! req = pending (browser w) !! req.


(** ** The drag handlers of the comparison slider *)

(** [ToBoolean] of a number: [0], [-0] and [NaN] are falsy. *)
Definition truthy_number (x : float) : bool := negb (is_zero x || is_nan x).

(** [Math.min] and [Math.max] of two numbers: [NaN] if either is [NaN];
    [-0] counts as smaller than [+0]. *)
Definition Math_min (a b : float) : float :=
  if is_nan a || is_nan b then nan
  else if (a <? b)%float then a
  else if (b <? a)%float then b
  else if get_sign a then a else b.

Definition Math_max (a b : float) : float :=
  if is_nan a || is_nan b then nan
  else if (a <? b)%float then b
  else if (b <? a)%float then a
  else if get_sign a then b else a.

(** What [handleDrag] reads of its event: a mouse event has a [clientX] and
    no [touches]; a touch event has no [clientX] and a list of touches, each
    with its [clientX]. *)
Inductive Pointer :=
| Mouse (clientX : float)
| Touch (touches : list float).

(** [container.getBoundingClientRect()]. *)
Record Rect := mkRect { rect_left : float; rect_width : float }.

(** The comparison slider as its drag listeners see it: the closure
    variable [isDragging], [document.body.style.cursor], and the number
    [percent] of the text [`${percent}%`] last written to the width of
    [comparisonBefore] and the left of [comparisonSlider], by [handleDrag] or
    by [updateComparisonView] (['50%']); [None] as long as neither has
    written. *)
Record Slide := mkSlide {
  isDragging : bool;
  body_cursor : option string;
  drag_percent : option float
}.

Definition slide0 : Slide := mkSlide false None None.

(** [e.clientX || e.touches[0].clientX]; [None] when the expression throws a
    TypeError ([e.touches] of a mouse event is [undefined], and so is
    [touches[0]] of an empty list). *)
Definition pointer_x (e : Pointer) : option float :=
  match e with
  | Mouse clientX => if truthy_number clientX then Some clientX else None
  | Touch touches =>
      match touches with
      | t :: _ => Some t
      | [] => None
      end
  end.

Definition drag_ratio (cx : float) (rect : Rect) : float :=
  ((cx - rect_left rect) / rect_width rect * 100)%float.

Definition handleDrag (e : Pointer) (rect : Rect) (s : Slide) : Slide :=
  if negb (isDragging s) then s
  else
    match pointer_x e with
    | None => s
    | Some cx =>
        let percent := Math_max 0 (Math_min 100 (drag_ratio cx rect)) in
        mkSlide (isDragging s) (body_cursor s) (Some percent)
    end.

Inductive DragEvent :=
| MouseDown
| MouseMove (clientX : float) (rect : Rect)
| MouseUp
| TouchStart
| TouchMove (touches : list float) (rect : Rect)
| TouchEnd
| ComparisonShown.   (* [updateComparisonView], compare mode on and a file active *)

Definition drag_step (e : DragEvent) (s : Slide) : Slide :=
  match e with
  | MouseDown => mkSlide true (Some "ew-resize") (drag_percent s)
  | MouseMove clientX rect => handleDrag (Mouse clientX) rect s
  | MouseUp => mkSlide false (Some "") (drag_percent s)
  | TouchStart => mkSlide true (body_cursor s) (drag_percent s)
  | TouchMove touches rect => handleDrag (Touch touches) rect s
  | TouchEnd => mkSlide false (body_cursor s) (drag_percent s)
  | ComparisonShown => mkSlide (isDragging s) (body_cursor s) (Some 50%float)
  end.

Definition drag_run (evs : list DragEvent) (s : Slide) : Slide :=
  foldl (fun s' e => drag_step e s') s evs.

Definition is_move (e : DragEvent) : bool :=
  match e with
  | MouseMove _ _ | TouchMove _ _ => true
  | _ => false
  end.

Definition is_release (e : DragEvent) : bool :=
  match e with
  | MouseUp | TouchEnd => true
  | _ => false
  end.

(** The clamp of [handleDrag]. *)
Definition clamp (v : float) : float := Math_max 0 (Math_min 100 v).

(** * Proofs *)

Ltac unfold_services :=
  unfold fetch, setTimeout, clearTimeout, alert, console_error, newEventSource,
    close, on_state, on_page, on_browser in *.

Ltac unfold_handlers :=
  unfold settle, resume, slider_input, compare_toggle, export_click,
    select_all_click, checkbox_change, handleFiles, uploadFile_settled, selectFile,
    updatePreview_settled, loadBeforeImage_settled, loadBeforeImage, afterBefore,
    preset_settled, updateSlidersFromSettings, startBatchExport_settled,
    startBatchExport, monitorBatchProgress, onmessage, onerror, showDownloadResults,
    deleteFile_settled, updateUI, updateFileList, updatePreview,
    updateComparisonView, showPreviewLoading, previewTimerFired, rendered in *.

(** Reduction leaves record projections in their unfolded form; this puts
    every projection of the goal and the hypotheses in that form. *)
Ltac unfold_projections :=
  unfold state, page, browser,
    files, activeFileId, settings, previewDebounce, compareMode,
    beforeImageUrl, afterImageUrl,
    previewImage_src, previewImage_display, previewPlaceholder_display,
    previewLoading_display, comparisonContainer_display, comparisonSplit,
    beforeImage_src, afterImage_src, sliderValue, valueDisplay,
    progressSection_display, progressBar, downloadSection_display,
    downloadSummary, downloadLinks, exportFilename, fileList, toolbar,
    clock, timers, nextTimer, requests, pending, sources, alerts, console in *.

(** Symbolic execution of a handler: unfold it and split on every test. *)
Ltac crush :=
  intros; repeat match goal with x := _ |- _ => subst x end;
  cbn [step] in *; unfold_handlers; cbn in *; unfold_projections;
  repeat (case_match; cbn in *; unfold_projections); simplify_eq; try done.

(** ** What the loops leave alone *)

Lemma fired_state (due : list (positive * nat)) w :
  state (foldl (fun w' _ => previewTimerFired w') w due) = state w.
Proof.
  revert w. induction due as [|t due IH]; intros w; cbn; [done|].
  by rewrite IH.
Qed.

Lemma elapse_state ms w : state (elapse ms w) = state w.
Proof. unfold elapse. by rewrite fired_state. Qed.

Lemma fired_fileList (due : list (positive * nat)) w :
  fileList (page (foldl (fun w' _ => previewTimerFired w') w due)) = fileList (page w).
Proof.
  revert w. induction due as [|t due IH]; intros w; cbn; [done|].
  by rewrite IH.
Qed.

Lemma elapse_fileList ms w : fileList (page (elapse ms w)) = fileList (page w).
Proof. unfold elapse. by rewrite fired_fileList. Qed.

Lemma fired_sources (due : list (positive * nat)) w :
  sources (browser (foldl (fun w' _ => previewTimerFired w') w due)) = sources (browser w).
Proof.
  revert w. induction due as [|t due IH]; intros w; cbn; [done|].
  by rewrite IH.
Qed.

Lemma elapse_sources ms w : sources (browser (elapse ms w)) = sources (browser w).
Proof. unfold elapse. by rewrite fired_sources. Qed.

Lemma updateSliders_cons name rest st p :
  updateSliders (name :: rest) st p =
  let p1 := set_sliderValue (<[slider_name name := st !! slider_name name]> (sliderValue p)) p in
  match st !! slider_name name with
  | Some (JNum x) =>
      updateSliders rest st
        (set_valueDisplay (<[slider_name name := x]> (valueDisplay p1)) p1)
  | _ => (p1, true)
  end.
Proof. reflexivity. Qed.

Lemma updateSliders_fileList names st p :
  fileList (updateSliders names st p).1 = fileList p.
Proof.
  revert p. induction names as [|n names IH]; intros p; [done|].
  rewrite updateSliders_cons. cbv zeta.
  destruct (st !! slider_name n) as [[| | x | | |]|]; try done.
  etransitivity; [apply IH|done].
Qed.

Lemma updateSlidersFromSettings_frame w :
  state (updateSlidersFromSettings w).1 = state w ∧
  browser (updateSlidersFromSettings w).1 = browser w ∧
  fileList (page (updateSlidersFromSettings w).1) = fileList (page w).
Proof.
  unfold updateSlidersFromSettings.
  pose proof (updateSliders_fileList sliders (settings (state w)) (page w)) as H.
  destruct (updateSliders sliders (settings (state w)) (page w)) as [p t]. done.
Qed.

(** What the loop of [updateSlidersFromSettings] left of the file list. *)
Ltac sliders_frame :=
  repeat match goal with
  | H : updateSliders ?names ?st ?pg = (?p, ?t) |- _ =>
      let Hf := fresh "Hf" in
      pose proof (updateSliders_fileList names st pg) as Hf; rewrite H in Hf;
      cbn [fst] in Hf; unfold_projections; rewrite ?Hf; clear H
  end.

Lemma reachable_run evs w : reachable w → reachable (run evs w).
Proof.
  revert w. induction evs as [|e evs IH]; intros w Hw; cbn; [done|].
  apply IH. by constructor.
Qed.

(** ** The file registry *)

Lemma ids_select_all b fs :
  map file_id (map (fun f => mkFile (file_id f) (filename f) b) fs) = map file_id fs.
Proof. induction fs as [|f fs IH]; cbn; [done|]. by rewrite IH. Qed.

Lemma ids_set_first_selected fileId checked fs :
  map file_id (set_first_selected fileId checked fs) = map file_id fs.
Proof.
  induction fs as [|f fs IH]; cbn; [done|].
  case_decide; cbn; [done|]. by rewrite IH.
Qed.

Lemma elem_of_ids_filter (a fileId : string) fs :
  a ∈ map file_id (filter (fun f => file_id f ≠ fileId) fs) ↔
  a ∈ map file_id fs ∧ a ≠ fileId.
Proof.
  rewrite !list_elem_of_fmap. split.
  - intros (f & -> & Hf). apply list_elem_of_filter in Hf as [? ?]. eauto.
  - intros [(f & -> & Hf) ?]. exists f. split; [done|]. by apply list_elem_of_filter.
Qed.

Lemma registry_ok_step e w : registry_ok w → registry_ok (step e w).
Proof.
  unfold registry_ok, active_in_registry, active, ids. intros [Ha Hl].
  destruct e; cbn [step].
  12: { rewrite elapse_state, elapse_fileList. done. }
  12: { unfold settle. case_match; [|done]. case_match; [|done].
        destruct c; crush; sliders_frame;
          repeat match goal with H : state _ = _ |- _ => rewrite H end;
          repeat match goal with H : fileList _ = _ |- _ => rewrite H end;
          cbn; rewrite ?map_app; cbn; try done.
        all: split; [intros a ?|intros i ?]; simplify_eq; try done.
        all: try (by auto).
        all: try match goal with
                 | Hf : fileList ?p = _, Hi : _ ∈ fileList ?p |- _ =>
                     rewrite Hf in Hi; by auto
                 end.
        all: try (apply elem_of_ids_filter; split; [auto|congruence]).
        all: try (apply elem_of_app; first [right; by left|left; by auto]).
        all: try match goal with H : filter _ _ = _ :: _ |- _ => rewrite H end.
        all: by left. }
  all: crush.
  all: rewrite ?ids_select_all, ?ids_set_first_selected; try done.
  all: split; [intros a ?|intros i]; simplify_eq; try done.
  all: match goal with H : bool_decide _ = true |- _ => apply bool_decide_eq_true_1 in H end; auto.
Qed.

Lemma registry_ok_reachable w : reachable w → registry_ok w.
Proof.
  induction 1 as [|e w _ IH]; [|by apply registry_ok_step].
  split; [intros a Ha; discriminate|]. intros i Hi. by apply elem_of_nil in Hi.
Qed.

Lemma plain_reachable_reachable w : plain_reachable w → reachable w.
Proof. induction 1; by constructor. Qed.

Lemma plain_reachable_run evs : ∀ w,
  plain_reachable w → forallb plain_event evs = true → plain_reachable (run evs w).
Proof.
  induction evs as [|e evs IH]; intros w Hw Hp; [done|].
  cbn in Hp. apply andb_true_iff in Hp as [He Hp].
  cbn [run]. apply IH; [by constructor|done].
Qed.

(** C9, as the code has it.  As long as the ids and names of the uploaded
    files hold no markup character, the active file id is [null] or the id of
    a file of the registry in every reachable state, and every event
    preserves this.  When the deletion of the active file completes, the
    registry loses the files carrying that id and the active file becomes the
    first file of what remains, or [null] when nothing remains; in that last
    case the completion issues no request, arms no timer and hides the
    comparison view. *)
Theorem active_file_registered w :
  plain_reachable w →
  active_in_registry w ∧
  (∀ e, plain_event e = true → active_in_registry (step e w)) ∧
  (∀ req fileId,
     pending (browser w) !! req = Some (KDelete fileId) →
     active w = Some fileId →
     let w' := step (Settle req Deleted) w in
     files (state w') = filter (fun f => file_id f ≠ fileId) (files (state w)) ∧
     active w' = head (ids w') ∧
     (ids w' = [] →
        active w' = None ∧
        requests (browser w') = requests (browser w) ∧
        timers (browser w') = timers (browser w) ∧
        comparisonContainer_display (page w') = display_none)).
Proof.
  intros Hw. split; [|split].
  - by apply registry_ok_reachable, plain_reachable_reachable.
  - intros e He. apply registry_ok_reachable, plain_reachable_reachable.
    by constructor.
  - intros req fileId Hp Ha. unfold active, ids in *.
    cbn [step]. unfold settle. rewrite Hp. cbn [answers].
    crush.
    all: match goal with H : filter _ _ = _ |- _ => rewrite !H end; done.
Qed.

Lemma active_file_registered_witness :
  let w := run (one_file ++ [ClickDelete "f1"]) init in
  active_in_registry w ∧
  active (step (Settle 1 Deleted) w) = None ∧
  requests (browser (step (Settle 1 Deleted) w)) = requests (browser w).
Proof.
  intros w.
  destruct (active_file_registered w) as (H1 & _ & H3).
  { apply plain_reachable_run; [constructor|by vm_compute]. }
  split; [exact H1|].
  destruct (H3 1 "f1") as (_ & _ & H4); [by vm_compute|by vm_compute|].
  destruct H4 as (? & ? & _); [by vm_compute|]. by split.
Defined.

(** C9 as stated fails on two runs.  With three files of which the second
    is active, the deletion of the active file makes the first file active,
    not the file that followed the deleted one.  And when the only file is
    deleted while the timer armed by its selection is live, the active file
    becomes [null] and the timer fires all the same: a preview fetch, for no
    file, is issued. *)
Lemma fallback_is_first_and_timer_fires :
  (let w := run (three_files ++ [ClickFilename "f2"; ClickDelete "f2"; Settle 3 Deleted])
                init in
   ids w = ["f1"; "f3"] ∧ active w = Some "f1") ∧
  (let w := run (one_file ++ [ClickDelete "f1"; Settle 1 Deleted]) init in
   ids w = [] ∧ active w = None ∧
   requests (browser (step (Elapse 300) w)) =
   requests (browser w) ++ [GET_preview None initialSettings]).
Proof. by vm_compute. Qed.

(** C10. Deleting a file that is not the active one removes the files
    carrying its id and nothing else: the active file, the cached baseline,
    the preview and its pending timer stay as they were and no request is
    issued when the deletion completes (the click itself only issues the
    DELETE).  An upload that completes while a file is active appends the new
    file, selected, and leaves the active file, the baseline, the preview and
    the timers alone; it selects the new file exactly when no file is
    active. *)
Theorem other_files_untouched w :
  (∀ fileId,
     let w' := step (ClickDelete fileId) w in
     state w' = state w ∧ page w' = page w ∧
     timers (browser w') = timers (browser w) ∧
     (requests (browser w') = requests (browser w) ∨
      requests (browser w') = requests (browser w) ++ [DELETE_file fileId])) ∧
  (∀ req fileId,
     pending (browser w) !! req = Some (KDelete fileId) →
     active w ≠ Some fileId →
     let w' := step (Settle req Deleted) w in
     files (state w') = filter (fun f => file_id f ≠ fileId) (files (state w)) ∧
     active w' = active w ∧
     beforeImageUrl (state w') = beforeImageUrl (state w) ∧
     afterImageUrl (state w') = afterImageUrl (state w) ∧
     previewImage_src (page w') = previewImage_src (page w) ∧
     previewImage_display (page w') = previewImage_display (page w) ∧
     requests (browser w') = requests (browser w) ∧
     timers (browser w') = timers (browser w)) ∧
  (∀ req rest id name,
     pending (browser w) !! req = Some (KUpload rest) →
     let w' := step (Settle req (Uploaded id name)) w in
     files (state w') = files (state w) ++ [mkFile id name true] ∧
     (truthy (active w) = true →
        active w' = active w ∧
        beforeImageUrl (state w') = beforeImageUrl (state w) ∧
        previewImage_src (page w') = previewImage_src (page w) ∧
        timers (browser w') = timers (browser w)) ∧
     (truthy (active w) = false → active w' = Some id)).
Proof.
  unfold active. split; [|split].
  - intros fileId. crush. all: auto.
  - intros req fileId Hp Ha. cbn [step]. unfold settle. rewrite Hp. cbn [answers].
    crush.
  - intros req rest id name Hp. cbn [step]. unfold settle. rewrite Hp. cbn [answers].
    crush.
    all: split; [done|].
    all: split; intros Ht; try done.
    all: destruct (truthy _); done.
Qed.

Lemma other_files_untouched_witness :
  let w := run (two_files ++ [ClickDelete "f2"]) init in
  active (step (Settle 2 Deleted) w) = Some "f1" ∧
  ids (step (Settle 2 Deleted) w) = ["f1"] ∧
  active (run two_files init) = Some "f1".
Proof.
  intros w.
  destruct (other_files_untouched w) as (_ & Hd & _).
  destruct (Hd 2 "f2") as (Hf & Ha & _); [by vm_compute|by vm_compute|].
  split; [rewrite Ha; by vm_compute|].
  split; [unfold ids; rewrite Hf; by vm_compute|].
  destruct (other_files_untouched (run [ChooseFiles ["a.raw"; "b.raw"];
             Settle 0 (Uploaded "f1" "a.raw")] init)) as (_ & _ & Hu).
  destruct (Hu 1 [] "f2" "b.raw") as (_ & Hk & _); [by vm_compute|].
  destruct Hk as (Hk & _); [by vm_compute|].
  change (run two_files init) with
    (step (Settle 1 (Uploaded "f2" "b.raw"))
       (run [ChooseFiles ["a.raw"; "b.raw"]; Settle 0 (Uploaded "f1" "a.raw")] init)).
  rewrite Hk. by vm_compute.
Defined.

(** ** The preview pipeline *)

(** C1, as the code has it.  The handler of a preview response compares it
    with no other request: a successful response, whenever it arrives, becomes
    the displayed preview and the comparison's after image; a failed response
    (non-success status, or a rejected fetch) leaves them as they were. *)
Theorem preview_last_arrival_wins w req :
  pending (browser w) !! req = Some KPreview →
  (∀ blob,
     let w' := step (Settle req (Image true blob)) w in
     previewImage_src (page w') = Some blob ∧
     afterImage_src (page w') = Some blob ∧
     afterImageUrl (state w') = Some blob) ∧
  (∀ r,
     (∃ blob, r = Image false blob) ∨ (∃ message, r = Rejected message) →
     let w' := step (Settle req r) w in
     previewImage_src (page w') = previewImage_src (page w) ∧
     afterImage_src (page w') = afterImage_src (page w) ∧
     afterImageUrl (state w') = afterImageUrl (state w)).
Proof.
  intros Hp. split.
  - intros blob. cbn [step]. unfold settle. rewrite Hp. cbn [answers]. crush.
  - intros r [[blob ->]|[message ->]]; cbn [step]; unfold settle; rewrite Hp;
      cbn [answers]; crush.
Qed.

Lemma preview_last_arrival_wins_witness :
  let w := run two_previews init in
  previewImage_src (page (step (Settle 1 (Image true 11)) w)) = Some 11 ∧
  previewImage_src (page (step (Settle 1 (Image false 11)) w)) = None.
Proof.
  intros w.
  destruct (preview_last_arrival_wins w 1) as [Hok Hfail]; [by vm_compute|].
  split; [apply Hok|].
  destruct (Hfail (Image false 11)) as (-> & _); [left; by exists 11|].
  by vm_compute.
Defined.

(** C1 fails as stated: request 1 is issued before request 2 for the same
    file, the response to request 2 is accepted, and the late response to
    request 1 then replaces it. *)
Lemma late_response_replaces_newer :
  let w := run two_previews init in
  requests (browser w) !! 1 = Some (GET_preview (Some "f1") initialSettings) ∧
  requests (browser w) !! 2 =
    Some (GET_preview (Some "f1") (<["exposure" := JNum 1.5]> initialSettings)) ∧
  previewImage_src (page (run [Settle 2 (Image true 22)] w)) = Some 22 ∧
  previewImage_src (page (run [Settle 2 (Image true 22); Settle 1 (Image true 11)] w))
    = Some 11 ∧
  afterImageUrl (state (run [Settle 2 (Image true 22); Settle 1 (Image true 11)] w))
    = Some 11.
Proof. by vm_compute. Qed.

(** ** The settings model *)

Lemma infinity_above (hi : float) :
  PrimFloat.ltb hi infinity = true → PrimFloat.leb infinity hi = false.
Proof.
  rewrite ltb_spec, leb_spec. change (Prim2SF infinity) with (S754_infinity false).
  destruct (Prim2SF hi) as [| [] | | [] ]; cbn; congruence.
Qed.

Lemma elem_of_sliders name : name ∈ sliders.
Proof. apply list_elem_of_In. destruct name; cbn; tauto. Qed.

Lemma updateSliders_keeps names st p k x :
  st !! k = Some (JNum x) →
  valueDisplay p !! k = Some x →
  valueDisplay (updateSliders names st p).1 !! k = Some x.
Proof.
  intros Hst. revert p. induction names as [|n names IH]; intros p Hp; [done|].
  rewrite updateSliders_cons. cbv zeta.
  destruct (st !! slider_name n) as [[| | y | | |]|] eqn:Hn; cbn; try done.
  apply IH. cbn. destruct (decide (slider_name n = k)) as [<-|Hne].
  - rewrite lookup_insert_eq. congruence.
  - by rewrite lookup_insert_ne.
Qed.

Lemma updateSliders_shows names st p :
  (∀ n, n ∈ names → ∃ x, st !! slider_name n = Some (JNum x)) →
  (updateSliders names st p).2 = false ∧
  ∀ n x, n ∈ names → st !! slider_name n = Some (JNum x) →
         valueDisplay (updateSliders names st p).1 !! slider_name n = Some x.
Proof.
  revert p. induction names as [|m names IH]; intros p Hall.
  { split; [done|]. intros n x Hn. by apply elem_of_nil in Hn. }
  rewrite updateSliders_cons. cbv zeta.
  destruct (Hall m) as [y Hy]; [by left|]. rewrite Hy.
  destruct (IH (set_valueDisplay (<[slider_name m := y]> (valueDisplay
              (set_sliderValue (<[slider_name m := Some (JNum y)]> (sliderValue p)) p)))
              (set_sliderValue (<[slider_name m := Some (JNum y)]> (sliderValue p)) p)))
    as [Hno Hshow].
  { intros n Hn. apply Hall. by right. }
  split; [done|]. intros n x Hn Hx.
  apply elem_of_cons in Hn as [->|Hn]; [|by apply Hshow].
  apply updateSliders_keeps; [done|]. cbn. rewrite lookup_insert_eq. congruence.
Qed.

Lemma elapse_single ms w id due :
  timers (browser w) = [(id, due)] →
  due ≤ clock (browser w) + ms →
  elapse ms w =
  previewTimerFired
    (on_browser (fun b => set_timers [] (set_clock (clock b + ms) b)) w).
Proof.
  intros Ht Hdue. unfold elapse. rewrite Ht.
  rewrite (filter_cons_True (fun t => t.2 ≤ clock (browser w) + ms)); [|done].
  rewrite filter_nil. cbn [foldl]. f_equal. unfold on_browser. f_equal.
  rewrite Ht. rewrite filter_cons_False; [done|]. cbn. lia.
Qed.

Lemma elapse_early ms w id due :
  timers (browser w) = [(id, due)] →
  clock (browser w) + ms < due →
  elapse ms w = on_browser (set_clock (clock (browser w) + ms)) w.
Proof.
  intros Ht Hdue. unfold elapse. rewrite Ht.
  rewrite (filter_cons_False (fun t => t.2 ≤ clock (browser w) + ms)); [|cbn; lia].
  rewrite filter_nil. cbn [foldl]. unfold on_browser. f_equal.
  rewrite Ht. rewrite filter_cons_True; [|cbn; lia].
  rewrite filter_nil. destruct w as [s p [k t n r q src a c]]. cbn in *. by subst.
Qed.

Lemma elapse_empty ms w :
  timers (browser w) = [] →
  elapse ms w = on_browser (set_clock (clock (browser w) + ms)) w.
Proof.
  intros Ht. unfold elapse. rewrite Ht. rewrite filter_nil. cbn [foldl].
  unfold on_browser. f_equal. rewrite Ht, filter_nil.
  destruct w as [s p [k t n r q src a c]]. cbn in *. by subst.
Qed.

Lemma preset_settled_settings button ok preset w :
  settings (state (preset_settled button (Json ok preset) w)) = spread preset.
Proof.
  unfold preset_settled.
  pose proof (updateSlidersFromSettings_frame (on_state (set_settings (spread preset)) w))
    as (Hs & _ & _).
  destruct (updateSlidersFromSettings _) as [w2 t]. cbn in Hs.
  destruct t; crush; by rewrite Hs.
Qed.

Lemma updatePreview_page w : page (updatePreview w) = page w.
Proof. crush. Qed.

Lemma updateSlidersFromSettings_shows w :
  (∀ name, ∃ x, settings (state w) !! slider_name name = Some (JNum x)) →
  (updateSlidersFromSettings w).2 = false ∧
  ∀ name x, settings (state w) !! slider_name name = Some (JNum x) →
    valueDisplay (page (updateSlidersFromSettings w).1) !! slider_name name = Some x.
Proof.
  intros Hall. unfold updateSlidersFromSettings.
  destruct (updateSliders_shows sliders (settings (state w)) (page w)) as [Hno Hshow].
  { intros n _. apply Hall. }
  destruct (updateSliders sliders (settings (state w)) (page w)) as [p t].
  split; [done|]. intros name x Hx. apply Hshow; [apply elem_of_sliders|done].
Qed.

Lemma preset_settled_shows button ok preset w :
  (∀ name, ∃ x, prop preset (slider_name name) = Some (JNum x)) →
  ∀ name x, prop preset (slider_name name) = Some (JNum x) →
    valueDisplay (page (preset_settled button (Json ok preset) w)) !! slider_name name
    = Some x.
Proof.
  intros Hall name x Hx. unfold preset_settled.
  destruct (updateSlidersFromSettings_shows (on_state (set_settings (spread preset)) w))
    as [Hno Hshow]; [done|].
  specialize (Hshow name x Hx).
  destruct (updateSlidersFromSettings _) as [w2 t].
  cbn [fst snd] in *. subst t. by rewrite updatePreview_page.
Qed.

(** C2, as the code has it.  No write to the settings clamps: a slider move
    stores and shows the number parsed from the slider; a preset or defaults
    reply becomes the settings object as it is (its own properties, whatever
    their values, and whatever the status of the reply) and, when it carries a
    number for each slider, these numbers are shown; the preview request
    carries the settings as stored. *)
Theorem settings_stored_as_written w :
  (∀ name value,
     let w' := step (SliderInput name value) w in
     settings (state w') = <[slider_name name := JNum value]> (settings (state w)) ∧
     valueDisplay (page w') !! slider_name name = Some value) ∧
  (∀ req button ok preset,
     pending (browser w) !! req = Some (KPreset button) →
     let w' := step (Settle req (Json ok preset)) w in
     settings (state w') = spread preset ∧
     ((∀ name, ∃ x, prop preset (slider_name name) = Some (JNum x)) →
      ∀ name x, prop preset (slider_name name) = Some (JNum x) →
                valueDisplay (page w') !! slider_name name = Some x)) ∧
  (∀ id due ms,
     timers (browser w) = [(id, due)] →
     due ≤ clock (browser w) + ms →
     requests (browser (step (Elapse ms) w)) =
     requests (browser w) ++ [GET_preview (active w) (settings (state w))]).
Proof.
  split; [|split].
  - intros name value. crush. all: by rewrite lookup_insert_eq.
  - intros req button ok preset Hp. cbn [step]. unfold settle. rewrite Hp.
    cbn [answers resume]. split.
    + apply preset_settled_settings.
    + apply preset_settled_shows.
  - intros id due ms Ht Hdue. cbn [step]. by rewrite (elapse_single _ _ _ _ Ht Hdue).
Qed.

Lemma settings_stored_as_written_witness :
  let w := run (one_file ++ [ClickPreset Reset]) init in
  settings (state (step (Settle 1 (Json true (snapshot 1000))) w)) = spread (snapshot 1000) ∧
  requests (browser (step (Elapse 300) w)) =
  requests (browser w) ++ [GET_preview (Some "f1") initialSettings].
Proof.
  intros w. destruct (settings_stored_as_written w) as (_ & Hpreset & Hsent).
  split.
  - by destruct (Hpreset 1 Reset true (snapshot 1000)) as [-> _]; [by vm_compute|].
  - by rewrite (Hsent 1%positive 300 300); [| by vm_compute | by vm_compute].
Defined.

(** C2 fails as stated.  A defaults reply whose exposure is 1000 is stored,
    shown and sent as 1000; and whatever bounded ranges the sliders declare,
    some snapshot leaves an exposure outside its range in the settings. *)
Lemma values_are_not_clamped :
  (let w := run (one_file ++ [ClickPreset Reset; Settle 1 (Json true (snapshot 1000));
                              Elapse 300]) init in
   settings (state w) !! "exposure" = Some (JNum 1000) ∧
   valueDisplay (page w) !! "exposure" = Some 1000%float ∧
   requests (browser w) !! 2 = Some (GET_preview (Some "f1") (spread (snapshot 1000)))) ∧
  ¬ ∃ declared : Slider → Range,
      (∀ n, PrimFloat.ltb (range_max (declared n)) infinity = true) ∧
      ∀ v, in_range (declared exposure)
             (settings (state (run [ClickPreset Reset; Settle 0 (Json true (snapshot v))]
                                   init)) !! "exposure") = true.
Proof.
  split; [by vm_compute|].
  intros (declared & Hbounded & Hall). specialize (Hall infinity).
  replace (settings (state (run [ClickPreset Reset; Settle 0 (Json true (snapshot infinity))]
                                init)) !! "exposure")
    with (Some (JNum infinity)) in Hall by (by vm_compute).
  unfold in_range in Hall. apply andb_true_iff in Hall as [_ Hall].
  by rewrite (infinity_above _ (Hbounded exposure)) in Hall.
Qed.

(** ** Debouncing *)

Lemma run_app evs1 evs2 w : run (evs1 ++ evs2) w = run evs2 (run evs1 w).
Proof. revert w. induction evs1 as [|e evs1 IH]; intros w; cbn; [done|]. apply IH. Qed.

Lemma timers_ok_ext w w' :
  timers (browser w') = timers (browser w) →
  previewDebounce (state w') = previewDebounce (state w) →
  timers_ok w → timers_ok w'.
Proof. unfold timers_ok. intros -> ->. done. Qed.

Lemma updatePreview_armed w :
  timers_ok w → truthy (active w) = true →
  armed (updatePreview w) ∧
  requests (browser (updatePreview w)) = requests (browser w) ∧
  clock (browser (updatePreview w)) = clock (browser w) ∧
  settings (state (updatePreview w)) = settings (state w) ∧
  active (updatePreview w) = active w.
Proof.
  unfold active, armed.
  intros [Ht|(id & due & Ht & Hd)] Ha; unfold updatePreview; rewrite Ha; cbn [negb].
  - destruct (previewDebounce (state w)); unfold_services; cbn; rewrite Ht;
      (split; [eexists; split; reflexivity|done]).
  - rewrite Hd. unfold_services; cbn. rewrite Ht.
    rewrite filter_cons_False; [|cbn; by intros ?].
    split; [eexists; split; reflexivity|done].
Qed.

Lemma armed_timers_ok w : armed w → timers_ok w.
Proof. intros (id & Ht & Hd). right. eauto. Qed.

Lemma timers_ok_updatePreview w : timers_ok w → timers_ok (updatePreview w).
Proof.
  intros Hok. destruct (truthy (active w)) eqn:Ha.
  - by apply armed_timers_ok, updatePreview_armed.
  - unfold updatePreview. unfold active in Ha. by rewrite Ha.
Qed.

Lemma timers_ok_elapse ms w : timers_ok w → timers_ok (elapse ms w).
Proof.
  intros [Ht|(id & due & Ht & Hd)].
  - rewrite (elapse_empty _ _ Ht). by left.
  - destruct (decide (due ≤ clock (browser w) + ms)).
    + rewrite (elapse_single _ _ _ _ Ht); [|done]. by left.
    + rewrite (elapse_early _ _ _ _ Ht); [|lia]. right. by exists id, due.
Qed.

Ltac unfold_outer :=
  unfold settle, resume, slider_input, compare_toggle, export_click,
    select_all_click, checkbox_change, handleFiles, uploadFile_settled, selectFile,
    updatePreview_settled, loadBeforeImage_settled, loadBeforeImage, afterBefore,
    preset_settled, updateSlidersFromSettings, startBatchExport_settled,
    startBatchExport, monitorBatchProgress, onmessage, onerror, showDownloadResults,
    deleteFile_settled, updateUI, updateFileList,
    updateComparisonView, showPreviewLoading, previewTimerFired, rendered in *.

Ltac frame_timers :=
  sliders_frame;
  first [ eassumption
        | eapply timers_ok_ext; [ | |eassumption]; cbn;
          repeat match goal with H : _ = _ |- _ => rewrite H end; reflexivity
        | apply timers_ok_updatePreview; frame_timers
        | eapply (timers_ok_ext (updatePreview _)); [reflexivity|reflexivity|];
          apply timers_ok_updatePreview; frame_timers ].

Lemma timers_ok_step e w : timers_ok w → timers_ok (step e w).
Proof.
  intros Hok. destruct e; cbn [step].
  12: by apply timers_ok_elapse.
  all: unfold_outer; repeat case_match; simplify_eq; frame_timers.
Qed.

Lemma timers_ok_reachable w : reachable w → timers_ok w.
Proof. induction 1; [by left|by apply timers_ok_step]. Qed.

Lemma slider_input_armed name value w :
  timers_ok w → truthy (active w) = true →
  armed (slider_input name value w) ∧
  requests (browser (slider_input name value w)) = requests (browser w) ∧
  settings (state (slider_input name value w)) =
    <[slider_name name := JNum value]> (settings (state w)) ∧
  active (slider_input name value w) = active w.
Proof.
  intros Hok Ha. unfold slider_input.
  match goal with |- armed (updatePreview ?w2) ∧ _ =>
    destruct (updatePreview_armed w2) as (Harm & Hr & _ & Hs & Hact) end.
  - eapply timers_ok_ext; [| |exact Hok]; reflexivity.
  - exact Ha.
  - rewrite Hr, Hs, Hact. done.
Qed.

Lemma burst_rest_armed rest w :
  armed w → truthy (active w) = true →
  Forall (fun gm : nat * Move => gm.1 < 300) rest →
  let w' := run (flat_map (fun gm => [Elapse gm.1; SliderInput gm.2.1 gm.2.2]) rest) w in
  armed w' ∧
  requests (browser w') = requests (browser w) ∧
  settings (state w') = moved (settings (state w)) (map snd rest) ∧
  active w' = active w.
Proof.
  revert w. induction rest as [|[gap [name value]] rest IH]; intros w Harm Ha Hgaps; cbn.
  { done. }
  apply Forall_cons in Hgaps as [Hgap Hgaps]. cbn in Hgap.
  destruct Harm as (id & Ht & Hd).
  rewrite (elapse_early _ _ _ _ Ht); [|lia].
  match goal with |- context [slider_input name value ?w1] =>
    destruct (slider_input_armed name value w1) as (Harm' & Hr & Hs & Hact) end.
  { right. by exists id, (clock (browser w) + 300). }
  { exact Ha. }
  destruct (IH _ Harm') as (? & Hr' & Hs' & Hact'); [by rewrite Hact|done|].
  rewrite Hr', Hs', Hact', Hr, Hs, Hact. done.
Qed.

Lemma elapse_fires ms w id due :
  timers (browser w) = [(id, due)] →
  due ≤ clock (browser w) + ms →
  requests (browser (elapse ms w)) =
  requests (browser w) ++ [GET_preview (active w) (settings (state w))].
Proof. intros Ht Hdue. by rewrite (elapse_single _ _ _ _ Ht Hdue). Qed.

(** C3. While a file is active, a burst of slider moves, each less than
    300 ms after the previous one, issues no request as long as it lasts and
    leaves exactly the timer armed by its last move; once 300 ms pass without
    a move, exactly one request is issued, a preview of the active file with
    the settings that the last move left.  At every point of the run at most
    one timer is live. *)
Theorem debounce_coalesces w first rest quiet :
  reachable w →
  truthy (active w) = true →
  Forall (fun gm : nat * Move => gm.1 < 300) rest →
  300 ≤ quiet →
  let evs := burst first rest ++ [Elapse quiet] in
  requests (browser (run (burst first rest) w)) = requests (browser w) ∧
  armed (run (burst first rest) w) ∧
  requests (browser (run evs w)) =
    requests (browser w) ++
    [GET_preview (active w) (moved (settings (state w)) (first :: map snd rest))] ∧
  ∀ k, length (timers (browser (run (take k evs) w))) ≤ 1.
Proof.
  intros Hw Ha Hgaps Hquiet evs.
  assert (Hone : ∀ k, length (timers (browser (run (take k evs) w))) ≤ 1).
  { intros k.
    destruct (timers_ok_reachable _ (reachable_run (take k evs) w Hw))
      as [->|(id & due & -> & _)]; cbn; lia. }
  destruct first as [name value]. unfold evs, burst. cbn [fst snd run step].
  destruct (slider_input_armed name value w) as (Harm & Hr & Hs & Hact);
    [by apply timers_ok_reachable|done|].
  destruct (burst_rest_armed rest _ Harm) as (Harm' & Hr' & Hs' & Hact');
    [by rewrite Hact|done|].
  cbv zeta in *.
  split; [by rewrite Hr', Hr|]. split; [done|]. split; [|done].
  rewrite run_app. cbn [run step].
  destruct Harm' as (id & Ht & Hd).
  rewrite (elapse_fires _ _ _ _ Ht); [|lia].
  rewrite Hr', Hs', Hact', Hr, Hs, Hact. done.
Qed.

Lemma debounce_coalesces_witness :
  let w := run one_file init in
  let evs := [SliderInput exposure 1.25; Elapse 100; SliderInput exposure 1.375;
              Elapse 100; SliderInput exposure 1.5; Elapse 300] in
  requests (browser (run evs w)) =
  requests (browser w) ++
  [GET_preview (Some "f1") (<["exposure" := JNum 1.5]> initialSettings)].
Proof.
  intros w evs.
  destruct (debounce_coalesces w (exposure, 1.25%float)
              [(100, (exposure, 1.375%float)); (100, (exposure, 1.5%float))] 300)
    as (_ & _ & Hone & _).
  - apply reachable_run. constructor.
  - by vm_compute.
  - repeat constructor.
  - lia.
  - etransitivity; [exact Hone|]. by vm_compute.
Defined.

(** ** The batch monitor *)

Lemma closed_not_open src w : is_closed src w → is_open src w = false.
Proof. intros [b Hb]. unfold is_open. by rewrite Hb. Qed.

Lemma close_closes src w : is_open src w = true → is_closed src (close src w).
Proof.
  unfold is_open, is_closed, close, on_browser. cbn.
  destruct (sources (browser w) !! src) as [s|] eqn:Hs; [|done]. intros _.
  exists (es_batchId s). by rewrite list_lookup_alter_eq, Hs.
Qed.

Lemma is_closed_ext src w w' :
  sources (browser w') = sources (browser w) → is_closed src w → is_closed src w'.
Proof. unfold is_closed. by intros ->. Qed.

Lemma close_keeps_closed src' src w : is_closed src w → is_closed src (close src' w).
Proof.
  unfold is_closed, close, on_browser. cbn. intros [b Hb].
  destruct (decide (src' = src)) as [->|Hne].
  - exists b. by rewrite list_lookup_alter_eq, Hb.
  - exists b. by rewrite list_lookup_alter_ne.
Qed.

Lemma newEventSource_keeps_closed batchId src w :
  is_closed src w → is_closed src (newEventSource batchId w).
Proof.
  unfold is_closed, newEventSource, on_browser. cbn. intros [b Hb].
  exists b. by apply lookup_app_l_Some.
Qed.

Lemma closed_stable src e w : is_closed src w → is_closed src (step e w).
Proof.
  unfold is_closed. intros [b Hb]. destruct e; cbn [step].
  12: { rewrite elapse_sources. eauto. }
  all: crush; sliders_frame;
       repeat match goal with H : browser _ = _ |- _ => rewrite H end; cbn.
  all: try (eexists; eassumption).
  all: try (eexists; apply lookup_app_l_Some; eassumption).
  all: match goal with |- context [alter _ ?s _] =>
         destruct (decide (s = src)) as [->|?];
         [rewrite list_lookup_alter_eq, Hb|rewrite list_lookup_alter_ne by done];
         eexists; done end.
Qed.

Lemma terminal_closes src data w :
  is_open src w = true → outcome data ≠ Progressed →
  is_closed src (step (SseMessage src data) w).
Proof.
  intros Ho Hterm. cbn [step]. rewrite Ho. unfold onmessage, outcome in *.
  destruct (truthy (pe_error data)).
  - eapply (is_closed_ext _ (close src w)); [reflexivity|]. by apply close_closes.
  - destruct (pe_done data); [|done].
    eapply (is_closed_ext _ (close src w)); [reflexivity|]. by apply close_closes.
Qed.

Lemma processed_closed src evs w : is_closed src w → processed src evs w = [].
Proof.
  revert w. induction evs as [|e evs IH]; intros w Hc; cbn [processed]; [done|].
  rewrite (IH _ (closed_stable src e w Hc)).
  destruct e; try done. rewrite (closed_not_open _ _ Hc), andb_false_r. done.
Qed.

Lemma terminal_is_last src evs w i o :
  processed src evs w !! i = Some o → o ≠ Progressed →
  S i = length (processed src evs w).
Proof.
  revert w i. induction evs as [|e evs IH]; intros w i; cbn [processed]; [done|].
  destruct e as [| | | | | | | | | | | | |s data|];
    try (rewrite app_nil_l; apply IH).
  destruct (Nat.eqb s src && is_open src w) eqn:Hhandled;
    [|rewrite app_nil_l; apply IH].
  apply andb_true_iff in Hhandled as [->%Nat.eqb_eq Ho]. cbn [app].
  destruct (decide (outcome data = Progressed)) as [Hp|Hterm].
  - destruct i as [|i]; cbn; [congruence|]. intros Hi Ho'. f_equal. by apply IH.
  - rewrite (processed_closed _ _ _ (terminal_closes _ _ _ Ho Hterm)).
    destruct i as [|i]; cbn; done.
Qed.

Lemma terminals_at_most_one src evs w :
  length (filter (fun o => o ≠ Progressed) (processed src evs w)) ≤ 1.
Proof.
  revert w. induction evs as [|e evs IH]; intros w; cbn [processed]; [cbn; lia|].
  destruct e as [| | | | | | | | | | | | |s data|];
    try (rewrite app_nil_l; apply IH).
  destruct (Nat.eqb s src && is_open src w) eqn:Hhandled;
    [|rewrite app_nil_l; apply IH].
  apply andb_true_iff in Hhandled as [->%Nat.eqb_eq Ho]. cbn [app].
  destruct (decide (outcome data = Progressed)) as [Hp|Hterm].
  - rewrite filter_cons_False; [apply IH|]. by intros ?.
  - rewrite (processed_closed _ _ _ (terminal_closes _ _ _ Ho Hterm)).
    rewrite filter_cons_True; [|done]. cbn. lia.
Qed.

(** C4. Along any run, among the progress events of one job that the
    handler processes, at most one is terminal ([Failed] or [Complete]) and it
    is the last one processed.  An event carrying an error closes the
    subscription at once, is reported, and materializes no results; an event
    with [done] and no error closes the subscription and materializes its
    results; once the subscription is closed, every further event of that job
    is ignored. *)
Theorem batch_terminates_once src w :
  (∀ evs, length (filter (fun o => o ≠ Progressed) (processed src evs w)) ≤ 1) ∧
  (∀ evs i o, processed src evs w !! i = Some o → o ≠ Progressed →
              S i = length (processed src evs w)) ∧
  (∀ data, is_open src w = true → truthy (pe_error data) = true →
     let w' := step (SseMessage src data) w in
     is_closed src w' ∧
     alerts (browser w') = alerts (browser w) ++ [default "" (pe_error data)] ∧
     progressSection_display (page w') = display_none ∧
     downloadLinks (page w') = downloadLinks (page w) ∧
     ∀ evs, processed src evs w' = []) ∧
  (∀ data, is_open src w = true → truthy (pe_error data) = false →
     pe_done data = true →
     let w' := step (SseMessage src data) w in
     is_closed src w' ∧
     downloadLinks (page w') = pe_results data ∧
     downloadSection_display (page w') = display_block ∧
     alerts (browser w') = alerts (browser w) ∧
     ∀ evs, processed src evs w' = []) ∧
  (is_closed src w →
     ∀ data, step (SseMessage src data) w = w ∧ step (SseError src) w = w).
Proof.
  split; [|split; [|split; [|split]]].
  - intros evs. apply terminals_at_most_one.
  - intros evs i o. apply terminal_is_last.
  - intros data Ho He w'.
    assert (Hc : is_closed src w').
    { apply terminal_closes; [done|]. unfold outcome. by rewrite He. }
    split; [done|]. split; [|split; [|split]].
    4: intros evs; by apply processed_closed.
    all: subst w'; cbn [step]; rewrite Ho; unfold onmessage; rewrite He; done.
  - intros data Ho He Hd w'.
    assert (Hc : is_closed src w').
    { apply terminal_closes; [done|]. unfold outcome. by rewrite He, Hd. }
    split; [done|]. split; [|split; [|split]].
    4: intros evs; by apply processed_closed.
    all: subst w'; cbn [step]; rewrite Ho; unfold onmessage; rewrite He, Hd; done.
  - intros Hc data. cbn [step]. by rewrite (closed_not_open _ _ Hc).
Qed.

Lemma batch_terminates_once_witness :
  let w := run export_running init in
  alerts (browser (step (SseMessage 0 failure_event) w)) = ["disk full"] ∧
  downloadSummary (page (step (SseMessage 0 done_event) w))
    = "2 of 3 files processed successfully" ∧
  step (SseMessage 0 done_event) (step (SseMessage 0 failure_event) w)
    = step (SseMessage 0 failure_event) w.
Proof.
  intros w.
  destruct (batch_terminates_once 0 w) as (_ & _ & Hfail & _ & _).
  destruct (Hfail failure_event) as (Hc & Ha & _); [by vm_compute|by vm_compute|].
  split; [rewrite Ha; by vm_compute|]. split; [by vm_compute|].
  destruct (batch_terminates_once 0 (step (SseMessage 0 failure_event) w))
    as (_ & _ & _ & _ & Hignored).
  by destruct (Hignored Hc done_event).
Defined.

(** C5, as the code has it.  On an open subscription, an in-band error is
    reported by an alert, hides the progress section and closes the
    subscription; a transport-level error only closes the subscription:
    nothing is reported or logged, and the page and the state are left as
    they were. *)
Theorem stream_failure_handling src w :
  is_open src w = true →
  (∀ data, truthy (pe_error data) = true →
     let w' := step (SseMessage src data) w in
     alerts (browser w') = alerts (browser w) ++ [default "" (pe_error data)] ∧
     progressSection_display (page w') = display_none ∧
     is_closed src w') ∧
  (let w' := step (SseError src) w in
   is_closed src w' ∧
   alerts (browser w') = alerts (browser w) ∧
   console (browser w') = console (browser w) ∧
   page w' = page w ∧
   state w' = state w).
Proof.
  intros Ho. split.
  - intros data He w'. split; [|split].
    3: { apply terminal_closes; [done|]. unfold outcome. by rewrite He. }
    all: subst w'; cbn [step]; rewrite Ho; unfold onmessage; rewrite He; done.
  - cbn [step]. rewrite Ho. unfold onerror. split; [by apply close_closes|done].
Qed.

Lemma stream_failure_handling_witness :
  let w := run export_running init in
  alerts (browser (step (SseMessage 0 failure_event) w)) = ["disk full"] ∧
  page (step (SseError 0) w) = page w.
Proof.
  intros w.
  destruct (stream_failure_handling 0 w) as [Hband Htransport]; [by vm_compute|].
  split.
  - destruct (Hband failure_event) as (-> & _); [by vm_compute|]. by vm_compute.
  - by destruct Htransport as (_ & _ & _ & -> & _).
Defined.

(** C5 fails as stated: a transport-level error on the running export closes
    the subscription and tells the user nothing; the progress section stays
    on the page as it was. *)
Lemma transport_error_is_silent :
  let w := run export_running init in
  let w' := step (SseError 0) w in
  is_open 0 w = true ∧ is_open 0 w' = false ∧
  alerts (browser w') = [] ∧ console (browser w') = [] ∧
  progressSection_display (page w') = display_block ∧
  page w' = page w.
Proof. by vm_compute. Qed.

(** ** Starting a batch export *)

Lemma startBatchExport_rejected w req message :
  pending (browser w) !! req = Some KBatchStart →
  let w' := step (Settle req (Rejected message)) w in
  sources (browser w') = sources (browser w) ∧
  alerts (browser w') = alerts (browser w) ++ ["Batch export failed: " +:+ message] ∧
  progressSection_display (page w') = display_none.
Proof. intros Hp. cbn [step]. unfold settle. rewrite Hp. cbn [answers]. crush. Qed.

Lemma startBatchExport_any_status w req ok body :
  pending (browser w) !! req = Some KBatchStart →
  body ≠ JNull →
  let w' := step (Settle req (Json ok body)) w in
  sources (browser w') = sources (browser w) ++ [mkSource (prop body "batch_id") true] ∧
  alerts (browser w') = alerts (browser w).
Proof. intros Hp Hb. cbn [step]. unfold settle. rewrite Hp. cbn [answers]. crush. Qed.

(** C6 at the failing input: the job creation is refused (non-success status,
    body [{"error": "Unknown file"}]); the handler never looks at the status,
    reports nothing, leaves the progress section on the page and opens a
    subscription keyed by the missing [batch_id]. *)
Theorem refused_start_opens_subscription :
  let w := run refused_start init in
  sources (browser w) = [mkSource None true] ∧
  alerts (browser w) = [] ∧
  progressSection_display (page w) = display_block.
Proof. by vm_compute. Qed.

(** ** Presets *)

Lemma preset_rejected_keeps_settings w req button message :
  pending (browser w) !! req = Some (KPreset button) →
  let w' := step (Settle req (Rejected message)) w in
  state w' = state w ∧ page w' = page w ∧
  console (browser w') =
    console (browser w) ++
    [match button with
     | LandscapeLighting => "Failed to load preset:"
     | Reset => "Failed to reset:"
     end].
Proof. intros Hp. cbn [step]. unfold settle. rewrite Hp. cbn [answers]. crush. Qed.

(** C8 at the failing input: the defaults endpoint answers with a non-success
    status and the body [{"error": "Internal Server Error"}]; the handler
    never looks at the status and replaces the whole settings object by that
    body, so every adjustment field is lost, before the failure is logged. *)
Theorem failed_reset_overwrites_settings :
  let w := run failed_reset init in
  settings (state init) !! "exposure" = Some (JNum 1) ∧
  settings (state w) = {["error" := JStr "Internal Server Error"]} ∧
  (∀ name, settings (state w) !! slider_name name = None) ∧
  console (browser w) = ["Failed to reset:"].
Proof.
  split; [by vm_compute|]. split; [by vm_compute|]. split; [|by vm_compute].
  intros name. destruct name; by vm_compute.
Qed.

(** ** The baseline image of compare mode *)

Lemma loadBeforeImage_request caller w :
  truthy (active w) = true →
  requests (browser (loadBeforeImage caller w)) =
  requests (browser w) ++ [GET_preview (active w) defaultSettings].
Proof. unfold active. intros Ha. unfold loadBeforeImage. by rewrite Ha. Qed.

Lemma fired_beforeImageUrl ms w :
  beforeImageUrl (state (elapse ms w)) = beforeImageUrl (state w).
Proof. by rewrite elapse_state. Qed.

Lemma before_reset_only_by e w :
  is_Some (beforeImageUrl (state w)) →
  beforeImageUrl (state (step e w)) = None →
  resets_before e w.
Proof.
  intros [blob Hb]. destruct e; cbn [step resets_before].
  12: { rewrite elapse_state. congruence. }
  12: { unfold settle. destruct (pending (browser w) !! req) as [k|] eqn:Hp; [|congruence].
        destruct (answers k r) eqn:Hans; [|congruence].
        destruct k, r; try discriminate Hans; crush; sliders_frame;
          repeat match goal with H : state _ = _ |- _ => rewrite H in * end;
          cbn in *; try congruence; unfold active; eauto.
        all: split; [eauto|]; by destruct (truthy _). }
  all: crush; congruence.
Qed.

Lemma before_reset_by e w :
  resets_before e w → beforeImageUrl (state (step e w)) = None.
Proof.
  destruct e; cbn [step resets_before]; try done.
  - intros ->. crush.
  - destruct r; try done.
    + intros [[rest Hp] Ha]. unfold settle, active in *. rewrite Hp. cbn [answers].
      crush. all: by destruct (truthy _).
    + intros (fileId & Hp & Ha). unfold settle, active in *. rewrite Hp. cbn [answers].
      crush.
Qed.

(** C7, as the code has it.  The baseline is always fetched with the fixed
    default settings, whatever the current settings.  Entering compare mode
    while a file is active and no baseline is cached issues exactly one
    request, that baseline fetch; a successful baseline response fills the
    cache; once the cache is filled, leaving and re-entering compare mode
    issues no request.  The cache is emptied by every call of [selectFile]
    (a click on a rendered file name, the active one included, or the upload
    that finds no active file) and by the deletion of the active file, and by
    no other event. *)
Theorem baseline_cache w :
  (∀ caller, truthy (active w) = true →
     requests (browser (loadBeforeImage caller w)) =
     requests (browser w) ++ [GET_preview (active w) defaultSettings]) ∧
  (truthy (active w) = true → beforeImageUrl (state w) = None →
     requests (browser (step (CompareToggle true) w)) =
     requests (browser w) ++ [GET_preview (active w) defaultSettings]) ∧
  (∀ req caller blob,
     pending (browser w) !! req = Some (KBefore caller) →
     beforeImageUrl (state (step (Settle req (Image true blob)) w)) = Some blob) ∧
  (∀ blob, beforeImageUrl (state w) = Some blob →
     let w' := run [CompareToggle false; CompareToggle true] w in
     requests (browser w') = requests (browser w) ∧
     beforeImageUrl (state w') = Some blob) ∧
  (∀ e, is_Some (beforeImageUrl (state w)) →
        beforeImageUrl (state (step e w)) = None → resets_before e w) ∧
  (∀ e, resets_before e w → beforeImageUrl (state (step e w)) = None).
Proof.
  split; [|split; [|split; [|split; [|split]]]].
  - intros caller. apply loadBeforeImage_request.
  - unfold active. intros Ha Hb. crush.
    all: try (by destruct (truthy _)).
    all: rewrite Hb in *; done.
  - intros req caller blob Hp. cbn [step]. unfold settle. rewrite Hp. cbn [answers].
    crush.
  - intros blob Hb. cbn [run step]. crush.
    all: rewrite Hb in *; done.
  - intros e. apply before_reset_only_by.
  - intros e. apply before_reset_by.
Qed.

Lemma baseline_cache_witness :
  let w := run one_file init in
  requests (browser (step (CompareToggle true) w)) =
    requests (browser w) ++ [GET_preview (Some "f1") defaultSettings] ∧
  requests (browser (run (compare_cached ++ [CompareToggle false; CompareToggle true]) init))
    = requests (browser (run compare_cached init)).
Proof.
  intros w. split.
  - destruct (baseline_cache w) as (_ & Htoggle & _).
    by rewrite Htoggle; [| by vm_compute | by vm_compute].
  - destruct (baseline_cache (run compare_cached init)) as (_ & _ & _ & Hcached & _).
    destruct (Hcached 7) as [Hr _]; [by vm_compute|].
    rewrite run_app. exact Hr.
Defined.

(** C7 fails as stated, twice.  A click on the name of the file that is
    already active empties the cached baseline although the active file does
    not change; and leaving and re-entering compare mode before the first
    baseline response has arrived issues a second baseline fetch. *)
Lemma baseline_cache_counterexample :
  (let w := run compare_cached init in
   active w = Some "f1" ∧ beforeImageUrl (state w) = Some 7 ∧
   active (step (ClickFilename "f1") w) = Some "f1" ∧
   beforeImageUrl (state (step (ClickFilename "f1") w)) = None) ∧
  (let w := run (one_file ++ [CompareToggle true; CompareToggle false; CompareToggle true])
                init in
   requests (browser w) =
   [POST_upload "a.raw"; GET_preview (Some "f1") defaultSettings;
    GET_preview (Some "f1") defaultSettings]).
Proof. by vm_compute. Qed.

(** ** Uploading files *)

Lemma upload_settles_cons first r rs :
  upload_settles first (r :: rs) = Settle first r :: upload_settles (S first) rs.
Proof.
  unfold upload_settles. cbn [imap]. rewrite Nat.add_0_r. f_equal.
  apply imap_ext. intros i x _. cbn. f_equal. lia.
Qed.

Lemma uploadFile_settled_effect r w :
  is_upload_result r = true →
  requests (browser (uploadFile_settled r w)) = requests (browser w) ∧
  files (state (uploadFile_settled r w)) = files (state w) ++ accepted [r] ∧
  alerts (browser (uploadFile_settled r w)) = alerts (browser w) ++ upload_alerts [r] ∧
  (truthy (active w) = true → active (uploadFile_settled r w) = active w) ∧
  (truthy (active w) = false →
   active (uploadFile_settled r w) =
   match r with Uploaded id _ => Some id | _ => active w end).
Proof.
  unfold active. destruct r; try discriminate; intros _; crush.
  all: rewrite ?app_nil_r; repeat split; try done.
  all: intros Ha; by rewrite Ha in *.
Qed.

Lemma handleFiles_run fs : ∀ rs w,
  length rs = length fs →
  Forall (fun r => is_upload_result r = true) rs →
  let w' := run (upload_settles (length (requests (browser w))) rs) (handleFiles fs w) in
  requests (browser w') = requests (browser w) ++ map POST_upload fs ∧
  files (state w') = files (state w) ++ accepted rs ∧
  alerts (browser w') = alerts (browser w) ++ upload_alerts rs ∧
  fileList (page w') = map file_id (files (state w')) ∧
  (truthy (active w) = true → active w' = active w) ∧
  (truthy (active w) = false →
   ∀ first rest, accepted rs = first :: rest →
                 truthy (Some (file_id first)) = true →
                 active w' = Some (file_id first)).
Proof.
  induction fs as [|f fs IH]; intros [|r rs] w Hlen Hall; try discriminate.
  { cbn. rewrite !app_nil_r. done. }
  apply Forall_cons in Hall as [Hr Hall]. injection Hlen as Hlen.
  rewrite upload_settles_cons. cbn [run handleFiles step].
  set (w0 := on_browser (fun b => set_pending (delete (length (requests (browser w))) (pending b)) b)
               (fetch (POST_upload f) (KUpload fs) w)).
  assert (Hstep : settle (length (requests (browser w))) r
                    (fetch (POST_upload f) (KUpload fs) w)
                  = handleFiles fs (uploadFile_settled r w0)).
  { unfold settle. cbn. rewrite lookup_insert_eq.
    destruct r; try discriminate; reflexivity. }
  rewrite Hstep.
  destruct (uploadFile_settled_effect r w0 Hr)
    as (Hreq & Hfiles & Halerts & Hact & Hsel).
  specialize (IH rs (uploadFile_settled r w0) Hlen Hall). cbv zeta in IH.
  replace (length (requests (browser (uploadFile_settled r w0))))
    with (S (length (requests (browser w)))) in IH
    by (rewrite Hreq; cbn; rewrite length_app; cbn; lia).
  destruct IH as (IHreq & IHfiles & IHalerts & IHlist & IHact & IHsel).
  split; [|split; [|split; [|split; [|split]]]].
  - rewrite IHreq, Hreq. cbn. by rewrite <- app_assoc.
  - rewrite IHfiles, Hfiles. cbn [state on_browser fetch w0].
    rewrite <- app_assoc. f_equal. by destruct r.
  - rewrite IHalerts, Halerts. cbn. rewrite <- app_assoc. f_equal. by destruct r.
  - done.
  - intros Ha. rewrite IHact; [by apply Hact|]. by rewrite Hact.
  - intros Ha first rest Hacc Hid. specialize (Hsel Ha).
    destruct r as [message|id name|error| | |]; try discriminate Hr; cbn in Hacc.
    + apply (IHsel ltac:(by rewrite Hsel) first rest Hacc Hid).
    + injection Hacc as <- <-. cbn in Hid.
      rewrite IHact; [done|]. by rewrite Hsel.
    + apply (IHsel ltac:(by rewrite Hsel) first rest Hacc Hid).
Qed.

(** X1. [handleFiles] uploads the chosen files one at a time and in order,
    whatever the replies: when every upload in turn is accepted, refused or
    fails, there is exactly one upload request per file, the accepted files
    are appended to the registry, selected, in order, every other reply is
    reported by an alert, the file list is rendered from the registry at the
    end, and a file that was active stays active; when no file was active,
    the first accepted file (with a non-empty id) becomes the active file. *)
Theorem uploads_run_in_order w fs rs :
  length rs = length fs →
  Forall (fun r => is_upload_result r = true) rs →
  let w' := run (ChooseFiles fs :: upload_settles (length (requests (browser w))) rs) w in
  requests (browser w') = requests (browser w) ++ map POST_upload fs ∧
  files (state w') = files (state w) ++ accepted rs ∧
  alerts (browser w') = alerts (browser w) ++ upload_alerts rs ∧
  fileList (page w') = map file_id (files (state w')) ∧
  (truthy (active w) = true → active w' = active w) ∧
  (truthy (active w) = false →
   ∀ first rest, accepted rs = first :: rest →
                 truthy (Some (file_id first)) = true →
                 active w' = Some (file_id first)).
Proof. intros Hlen Hall. cbn [run step]. by apply handleFiles_run. Qed.

Lemma uploads_run_in_order_witness :
  let w' := run [ChooseFiles ["a.raw"; "b.raw"; "c.raw"];
                 Settle 0 (Uploaded "f1" "a.raw");
                 Settle 1 (UploadRefused "unsupported format");
                 Settle 2 (Uploaded "f3" "c.raw")] init in
  map file_id (files (state w')) = ["f1"; "f3"] ∧
  alerts (browser w') = ["Upload failed: unsupported format"] ∧
  active w' = Some "f1".
Proof.
  intros w'.
  destruct (uploads_run_in_order init ["a.raw"; "b.raw"; "c.raw"]
              [Uploaded "f1" "a.raw"; UploadRefused "unsupported format";
               Uploaded "f3" "c.raw"]) as (_ & Hfiles & Halerts & _ & _ & Hsel).
  - reflexivity.
  - repeat constructor.
  - split; [|split].
    + change (map file_id (files (state w'))) with
        (map file_id (files (state (run (ChooseFiles ["a.raw"; "b.raw"; "c.raw"]
           :: upload_settles (length (requests (browser init)))
                [Uploaded "f1" "a.raw"; UploadRefused "unsupported format";
                 Uploaded "f3" "c.raw"]) init)))).
      rewrite Hfiles. reflexivity.
    + exact Halerts.
    + apply (Hsel eq_refl (mkFile "f1" "a.raw" true) [mkFile "f3" "c.raw" true]);
        reflexivity.
Defined.

(** ** Selection and export *)

Lemma every_selected_map_set b fs :
  every_selected (map (fun f => mkFile (file_id f) (filename f) b) fs) =
  match fs with [] => true | _ => b end.
Proof.
  unfold every_selected. destruct fs as [|f fs]; [done|]. cbn.
  destruct b; cbn; [|done]. induction fs as [|g fs IH]; cbn; done.
Qed.

Lemma map_set_selected_id b fs :
  map (fun f => mkFile (file_id f) (filename f) b) fs = fs ↔
  Forall (fun f => selected f = b) fs.
Proof.
  induction fs as [|f fs IH]; cbn.
  { split; [constructor|done]. }
  split.
  - intros Heq. injection Heq as Hf Hfs. constructor; [|by apply IH].
    by rewrite <- Hf at 1.
  - intros [Hf Hfs]%Forall_cons. f_equal; [|by apply IH].
    destruct f as [i n s]. cbn in *. by subst.
Qed.

Lemma every_selected_Forall fs :
  every_selected fs = true ↔ Forall (fun f => selected f = true) fs.
Proof.
  unfold every_selected. rewrite forallb_forall, Forall_forall.
  split; intros H f Hf; apply H; by apply list_elem_of_In.
Qed.

Lemma select_all_files w :
  files (state (step ClickSelectAll w)) =
  map (fun f => mkFile (file_id f) (filename f) (negb (every_selected (files (state w)))))
      (files (state w)).
Proof. crush. Qed.

(** X2. The Select All button deselects every file when all files are
    selected, and selects every file otherwise (also when only some are
    selected); ids, names and order are kept.  Two clicks in a row give back
    the selection one started from exactly when it was "all selected" or
    "none selected". *)
Theorem select_all_toggle w :
  let fs := files (state w) in
  let w' := step ClickSelectAll w in
  map file_id (files (state w')) = map file_id fs ∧
  map filename (files (state w')) = map filename fs ∧
  Forall (fun f => selected f = negb (every_selected fs)) (files (state w')) ∧
  (files (state (run [ClickSelectAll; ClickSelectAll] w)) = fs ↔
   every_selected fs = true ∨ Forall (fun f => selected f = false) fs).
Proof.
  intros fs w'. subst w'. rewrite select_all_files. fold fs.
  split; [|split; [|split]].
  - apply ids_select_all.
  - rewrite map_map. by apply map_ext.
  - apply Forall_forall. intros f [g [-> _]]%list_elem_of_fmap. done.
  - cbn [run]. rewrite select_all_files, select_all_files. fold fs.
    rewrite every_selected_map_set, map_map. cbn.
    destruct fs as [|f l] eqn:Hfs; [cbn; split; [by left|done]|]. rewrite <- Hfs.
    rewrite negb_involutive, map_set_selected_id.
    destruct (every_selected fs) eqn:Hall.
    + split; [by left|]. intros _. by apply every_selected_Forall.
    + split; [by right|]. intros [?|?]; done.
Qed.

Lemma select_all_toggle_witness :
  let w := run (two_files ++ [CheckboxChange "f2" false]) init in
  map selected (files (state w)) = [true; false] ∧
  map selected (files (state (step ClickSelectAll w))) = [true; true] ∧
  files (state (run [ClickSelectAll; ClickSelectAll] w)) ≠ files (state w).
Proof.
  intros w. split; [by vm_compute|]. split; [by vm_compute|].
  destruct (select_all_toggle w) as (_ & _ & _ & Htwice).
  intros Heq. apply Htwice in Heq as [Hall|Hnone]; [by vm_compute in Hall|].
  cbv zeta in Hnone. apply Forall_forall with (x := mkFile "f1" "a.raw" true) in Hnone.
  - discriminate Hnone.
  - by vm_compute; left.
Defined.

Lemma set_first_selected_split fileId checked fs :
  fileId ∈ map file_id fs →
  ∃ l1 f l2,
    fs = l1 ++ f :: l2 ∧ file_id f = fileId ∧ (fileId ∉ map file_id l1) ∧
    set_first_selected fileId checked fs
    = l1 ++ mkFile (file_id f) (filename f) checked :: l2.
Proof.
  induction fs as [|g fs IH]; cbn; intros Hin.
  { by apply elem_of_nil in Hin. }
  destruct (decide (file_id g = fileId)) as [Hg|Hg].
  - exists [], g, fs. repeat split; try done. cbn. apply not_elem_of_nil.
  - apply elem_of_cons in Hin as [Hin|Hin]; [congruence|].
    destruct (IH Hin) as (l1 & f & l2 & -> & Hf & Hl1 & ->).
    exists (g :: l1), f, l2. repeat split; try done.
    cbn. intros [?|?]%elem_of_cons; [congruence|done].
Qed.

Lemma set_first_selected_absent fileId checked fs :
  fileId ∉ map file_id fs → set_first_selected fileId checked fs = fs.
Proof.
  induction fs as [|g fs IH]; cbn; intros Hin; [done|].
  destruct (decide (file_id g = fileId)) as [Hg|Hg].
  - destruct Hin. apply elem_of_cons. left. symmetry. exact Hg.
  - rewrite IH; [done|]. intros ?. apply Hin. by right.
Qed.

(** X3. The 'change' listener of the checkbox of a row sets the selection
    flag of the first file of the registry carrying the id of the row, and of
    no other file: ids, names, order and the other flags are kept.  When no
    file carries that id ([find] answers [undefined]) the registry is left as
    it is.  Either way the active file and the request log are untouched, the
    rows are written again and the export buttons are re-computed. *)
Theorem checkbox_sets_one_file w fileId checked :
  let w' := checkbox_change fileId checked w in
  (fileId ∈ ids w →
   ∃ l1 f l2,
     files (state w) = l1 ++ f :: l2 ∧ file_id f = fileId ∧
     (fileId ∉ map file_id l1) ∧
     files (state w') = l1 ++ mkFile (file_id f) (filename f) checked :: l2) ∧
  (fileId ∉ ids w → files (state w') = files (state w)) ∧
  active w' = active w ∧
  requests (browser w') = requests (browser w) ∧
  fileList (page w') = ids w ∧
  btnExportSelected_disabled (toolbar (page w')) =
    Nat.eqb (length (List.filter selected (files (state w')))) 0.
Proof.
  intros w'. subst w'. unfold checkbox_change, ids.
  split; [|split; [|split; [done|split; [done|split; [|done]]]]].
  - apply set_first_selected_split.
  - apply set_first_selected_absent.
  - cbn. apply ids_set_first_selected.
Qed.

Lemma checkbox_sets_one_file_witness :
  let w := run two_files init in
  map selected (files (state (checkbox_change "f2" false w))) = [true; false] ∧
  files (state (checkbox_change "f9" false w)) = files (state w) ∧
  step (CheckboxChange "f2" false) w = checkbox_change "f2" false w.
Proof.
  intros w.
  destruct (checkbox_sets_one_file w "f9" false) as (_ & Hno & _).
  split; [by vm_compute|]. split; [|by vm_compute].
  apply Hno. apply (bool_decide_eq_true_1 _). by vm_compute.
Defined.

Lemma export_click_effect (all : bool) w :
  let chosen := if all then files (state w) else List.filter selected (files (state w)) in
  let w' := export_click all w in
  (map file_id chosen = [] → w' = w) ∧
  (map file_id chosen ≠ [] →
     requests (browser w') =
       requests (browser w) ++
       [POST_batch_start (map file_id chosen) (settings (state w)) (getCustomFilename w)] ∧
     pending (browser w') !! length (requests (browser w)) = Some KBatchStart ∧
     state w' = state w ∧
     sources (browser w') = sources (browser w) ∧
     progressSection_display (page w') = display_block ∧
     downloadSection_display (page w') = display_none).
Proof.
  intros chosen w'. subst w'. unfold export_click. fold chosen.
  destruct (map file_id chosen) as [|i l] eqn:Hids; cbn [length Nat.ltb Nat.leb].
  - split; [done|]. by intros [].
  - split; [done|]. intros _. unfold startBatchExport, fetch. cbn.
    rewrite lookup_insert_eq. done.
Qed.

(** X4. A click on Export Selected (on Export All) does nothing at all when
    no file is selected (when the registry is empty).  Otherwise it issues
    exactly one request, the job creation, carrying the ids of the selected
    files (of all files) in registry order, the current settings and the
    custom file name; it shows the progress section, hides the download
    section, and leaves state and subscriptions alone. *)
Theorem export_click_request w (all : bool) :
  let e := if all then ClickExportAll else ClickExportSelected in
  let chosen := if all then files (state w) else List.filter selected (files (state w)) in
  let w' := step e w in
  (map file_id chosen = [] → w' = w) ∧
  (map file_id chosen ≠ [] →
     requests (browser w') =
       requests (browser w) ++
       [POST_batch_start (map file_id chosen) (settings (state w)) (getCustomFilename w)] ∧
     pending (browser w') !! length (requests (browser w)) = Some KBatchStart ∧
     state w' = state w ∧
     sources (browser w') = sources (browser w) ∧
     progressSection_display (page w') = display_block ∧
     downloadSection_display (page w') = display_none).
Proof.
  destruct all; [apply (export_click_effect true)|apply (export_click_effect false)].
Qed.

Lemma requests_grow_ne w w' r :
  requests (browser w') = requests (browser w) ++ [r] → w' ≠ w.
Proof.
  intros Hr ->. apply (f_equal length) in Hr. rewrite length_app in Hr. cbn in Hr. lia.
Qed.

(** X5. After [updateUI], the Export Selected button is disabled exactly
    when a click on it would do nothing, and so is the Export All button; the
    Select All button reads 'Deselect All' exactly when the registry is not
    empty and all its files are selected, and the counter shows the number of
    files. *)
Theorem toolbar_agrees_with_guards w :
  let w' := updateUI w in
  (btnExportSelected_disabled (toolbar (page w')) = true ↔
   step ClickExportSelected w' = w') ∧
  (btnExportAll_disabled (toolbar (page w')) = true ↔ step ClickExportAll w' = w') ∧
  (btnSelectAll_deselects (toolbar (page w')) = true ↔
   files (state w') ≠ [] ∧ every_selected (files (state w')) = true) ∧
  fileCount (toolbar (page w')) = length (files (state w')) ∧
  fileList (page w') = map file_id (files (state w')).
Proof.
  intros w'.
  assert (Hfiles : files (state w') = files (state w)) by done.
  assert (Hsel : btnExportSelected_disabled (toolbar (page w'))
                 = Nat.eqb (length (List.filter selected (files (state w')))) 0) by done.
  assert (Hall : btnExportAll_disabled (toolbar (page w'))
                 = Nat.eqb (length (files (state w'))) 0) by done.
  assert (Hlabel : btnSelectAll_deselects (toolbar (page w'))
                 = Nat.ltb 0 (length (files (state w'))) && every_selected (files (state w')))
    by done.
  split; [|split; [|split; [|split]]]; try done.
  - rewrite Hsel. destruct (export_click_effect false w') as [Hnone Hsome]. cbv zeta in *.
    destruct (List.filter selected (files (state w'))) as [|f l] eqn:Hf; cbn.
    + split; [intros _; by apply Hnone|done].
    + split; [done|]. intros Heq. exfalso.
      destruct Hsome as (Hr & _); [done|]. by apply requests_grow_ne in Hr.
  - rewrite Hall. destruct (export_click_effect true w') as [Hnone Hsome]. cbv zeta in *.
    destruct (files (state w')) as [|f l] eqn:Hf; cbn.
    + split; [intros _; by apply Hnone|done].
    + split; [done|]. intros Heq. exfalso.
      destruct Hsome as (Hr & _); [done|]. by apply requests_grow_ne in Hr.
  - rewrite Hlabel. destruct (files (state w')) as [|f l]; cbn.
    + split; [done|]. by intros [[] _].
    + split; [by intros ->|by intros [_ ->]].
Qed.

(** ** The custom file name *)

Lemma append_nil_r s : s +:+ "" = s.
Proof. induction s as [|c s IH]; cbn; [done|]. unfold String.app in *. cbn. by rewrite IH. Qed.

Lemma append_assoc' s1 s2 s3 : (s1 +:+ s2) +:+ s3 = s1 +:+ (s2 +:+ s3).
Proof.
  unfold String.app. induction s1 as [|c s1 IH]; cbn; [done|]. by rewrite IH.
Qed.

Lemma append_length s1 s2 :
  String.length (s1 +:+ s2) = String.length s1 + String.length s2.
Proof. unfold String.app. induction s1 as [|c s1 IH]; cbn; [done|]. by rewrite IH. Qed.

Lemma strip_prefix_Some p s rest : strip_prefix p s = Some rest ↔ s = p +:+ rest.
Proof.
  revert s. induction p as [|a p IH]; intros s; cbn.
  - split; [by intros [= ->]|by intros ->].
  - destruct s as [|b s]; [done|].
    change (String a p +:+ rest) with (String a (p +:+ rest)).
    destruct (Ascii.eqb a b) eqn:Hab.
    + apply Ascii.eqb_eq in Hab as ->. rewrite IH. split; [by intros ->|by intros [= ->]].
    + apply Ascii.eqb_neq in Hab. split; [done|]. intros [= ? ?]. congruence.
Qed.

Lemma head_omap_Some {A B} (f : A → option B) l b :
  head (omap f l) = Some b → ∃ a, a ∈ l ∧ f a = Some b.
Proof.
  induction l as [|a l IH]; cbn; [done|].
  destruct (f a) as [b'|] eqn:Hfa; cbn.
  - intros [= ->]. exists a. split; [by left|done].
  - intros (a' & Hin & Hf)%IH. exists a'. split; [by right|done].
Qed.

Lemma head_omap_None {A B} (f : A → option B) l :
  head (omap f l) = None → ∀ a, a ∈ l → f a = None.
Proof.
  induction l as [|a l IH]; cbn; intros Hh a' Hin.
  - by apply elem_of_nil in Hin.
  - destruct (f a) as [b'|] eqn:Hfa; cbn in Hh; [done|].
    apply elem_of_cons in Hin as [->|Hin]; [done|]. by apply IH.
Qed.

Lemma strip_space_Some s rest :
  strip_space s = Some rest → ∃ c, c ∈ white_space ∧ s = c +:+ rest.
Proof.
  unfold strip_space. intros Hh.
  apply (head_omap_Some (fun c => strip_prefix c s) white_space rest) in Hh
    as (c & Hc & Hs).
  exists c. split; [exact Hc|]. apply strip_prefix_Some. exact Hs.
Qed.

Lemma strip_space_None s c rest :
  strip_space s = None → c ∈ white_space → s ≠ c +:+ rest.
Proof.
  unfold strip_space. intros Hs Hc Heq. apply strip_prefix_Some in Heq.
  pose proof (head_omap_None (fun c => strip_prefix c s) white_space Hs c Hc) as Hn.
  cbv beta in Hn. congruence.
Qed.

Lemma white_space_not_empty c : c ∈ white_space → 0 < String.length c.
Proof.
  assert (H : Forall (fun c => 0 < String.length c) white_space).
  { apply (bool_decide_eq_true_1 _). by vm_compute. }
  intros Hc. by eapply Forall_forall in H.
Qed.

(** No white space code point is the beginning of another. *)
Lemma strip_space_white c rest : c ∈ white_space → strip_space (c +:+ rest) = Some rest.
Proof.
  assert (H : Forall (fun c => ∀ rest, strip_space (c +:+ rest) = Some rest) white_space).
  { unfold white_space. repeat (constructor; [intros r; by vm_compute|]).
    constructor. }
  intros Hc. by eapply Forall_forall in H.
Qed.

Lemma white_text_app s1 s2 : white_text s1 → white_text s2 → white_text (s1 +:+ s2).
Proof.
  induction 1 as [|c rest Hc _ IH]; intros H2; [done|].
  rewrite append_assoc'. constructor; [done|by apply IH].
Qed.

Lemma trim_start_from_spec fuel : ∀ s,
  String.length s ≤ fuel →
  (∃ pre, s = pre +:+ trim_start_from fuel s ∧ white_text pre) ∧
  strip_space (trim_start_from fuel s) = None.
Proof.
  induction fuel as [|fuel IH]; intros s Hlen.
  - destruct s; [|cbn in Hlen; lia]. split; [|done]. exists "". split; [done|constructor].
  - cbn. destruct (strip_space s) as [rest|] eqn:Hs.
    + destruct (strip_space_Some _ _ Hs) as (c & Hc & ->).
      pose proof (white_space_not_empty c Hc). rewrite append_length in Hlen.
      destruct (IH rest) as [(pre & Hpre & Hw) Hnone]; [lia|].
      split; [|done]. exists (c +:+ pre). split.
      * rewrite append_assoc'. by rewrite <- Hpre.
      * by constructor.
    + split; [|done]. exists "". split; [done|constructor].
Qed.

Lemma trim_start_split s : ∃ pre, s = pre +:+ trim_start s ∧ white_text pre.
Proof. by apply trim_start_from_spec. Qed.

Lemma trim_start_stops s : strip_space (trim_start s) = None.
Proof. by apply trim_start_from_spec. Qed.

Lemma trim_start_from_white fuel : ∀ s,
  white_text s → String.length s ≤ fuel → trim_start_from fuel s = "".
Proof.
  induction fuel as [|fuel IH]; intros s Hw Hlen.
  - destruct s; [done|cbn in Hlen; lia].
  - destruct Hw as [|c rest Hc Hw]; [done|].
    cbn. rewrite (strip_space_white c rest Hc).
    pose proof (white_space_not_empty c Hc). rewrite append_length in Hlen.
    apply IH; [done|lia].
Qed.

Lemma all_space_white s : all_space s = true ↔ white_text s.
Proof.
  unfold all_space. rewrite String.eqb_eq. split.
  - intros He. destruct (trim_start_split s) as (pre & Hs & Hw).
    rewrite He, append_nil_r in Hs. by subst.
  - intros Hw. by apply trim_start_from_white.
Qed.

Lemma trim_end_split s : ∃ post, s = trim_end s +:+ post ∧ white_text post.
Proof.
  induction s as [|c s (post & Hs & Hw)]; [exists ""; split; [done|constructor]|].
  cbn [trim_end]. destruct (all_space (String c s)) eqn:Ha.
  - exists (String c s). split; [done|]. by apply all_space_white.
  - exists post. split; [|done].
    change (String c (trim_end s) +:+ post) with (String c (trim_end s +:+ post)).
    by rewrite <- Hs.
Qed.

Lemma trim_end_stops s c r : c ∈ white_space → trim_end s ≠ r +:+ c.
Proof.
  intros Hc. revert r. induction s as [|a s IH]; intros r.
  - cbn. pose proof (white_space_not_empty c Hc). intros Heq.
    apply (f_equal String.length) in Heq. rewrite append_length in Heq. cbn in Heq. lia.
  - cbn [trim_end]. destruct (all_space (String a s)) eqn:Ha.
    + pose proof (white_space_not_empty c Hc). intros Heq.
      apply (f_equal String.length) in Heq. rewrite append_length in Heq. cbn in Heq. lia.
    + destruct r as [|b r].
      * intros Heq. change ("" +:+ c) with c in Heq.
        destruct (trim_end_split s) as (post & Hs & Hw).
        assert (Hall : white_text (String a s)).
        { rewrite Hs.
          change (String a (trim_end s +:+ post)) with (String a (trim_end s) +:+ post).
          rewrite Heq. by constructor. }
        apply all_space_white in Hall. congruence.
      * change (String b r +:+ c) with (String b (r +:+ c)). intros [= _ Heq].
        by apply IH in Heq.
Qed.

Lemma trim_split s :
  ∃ pre post, s = pre +:+ trim s +:+ post ∧ white_text pre ∧ white_text post.
Proof.
  destruct (trim_start_split s) as (pre & Hs & Hpre).
  destruct (trim_end_split (trim_start s)) as (post & Ht & Hpost).
  exists pre, post. split; [|done]. unfold trim. by rewrite <- Ht.
Qed.

Lemma trim_starts c r s : c ∈ white_space → trim s ≠ c +:+ r.
Proof.
  intros Hc Heq. destruct (trim_end_split (trim_start s)) as (post & Ht & _).
  fold (trim s) in Ht. rewrite Heq, append_assoc' in Ht.
  by apply (strip_space_None _ c (r +:+ post) (trim_start_stops s)).
Qed.

Lemma trim_white s : trim s = "" ↔ white_text s.
Proof.
  split.
  - intros He. destruct (trim_split s) as (pre & post & Hs & Hpre & Hpost).
    rewrite Hs, He. by apply white_text_app.
  - intros Hw. unfold trim. apply all_space_white in Hw. unfold all_space in Hw.
    apply String.eqb_eq in Hw. by rewrite Hw.
Qed.

(** X6. [getCustomFilename] answers [null] exactly when the text of the
    filename input is made of white space only, the empty text included.
    Otherwise it answers the text without its leading and trailing white
    space: the text is the answer between two runs of white space, the answer
    is not empty, and no white space character begins or ends it.  White
    space is what [String.prototype.trim] strips, the white space and line
    terminator code points of ECMAScript ([white_space]). *)
Theorem custom_filename_trimmed w :
  (getCustomFilename w = None ↔ white_text (exportFilename (page w))) ∧
  (∀ name, getCustomFilename w = Some name →
     (∃ pre post, exportFilename (page w) = pre +:+ name +:+ post ∧
                  white_text pre ∧ white_text post) ∧
     name ≠ "" ∧
     (∀ c rest, c ∈ white_space → name ≠ c +:+ rest ∧ name ≠ rest +:+ c)).
Proof.
  unfold getCustomFilename. set (s := exportFilename (page w)). split.
  - destruct (String.eqb (trim s) "") eqn:He.
    + apply String.eqb_eq in He. split; [intros _|done]. by apply trim_white.
    + apply String.eqb_neq in He. split; [done|]. by intros ?%trim_white.
  - intros name. destruct (String.eqb (trim s) "") eqn:He; [done|].
    intros [= <-]. apply String.eqb_neq in He.
    split; [apply trim_split|]. split; [done|].
    intros c rest Hc. split; [by apply trim_starts|by apply trim_end_stops].
Qed.

Lemma custom_filename_trimmed_witness :
  let nbsp := utf8 [194; 160] in
  let w := step (TypeExportFilename (nbsp +:+ " sunset shoot " +:+ nbsp)) init in
  getCustomFilename w = Some "sunset shoot" ∧
  getCustomFilename (step (TypeExportFilename nbsp) init) = None.
Proof.
  intros nbsp w. split; [by vm_compute|].
  apply (custom_filename_trimmed (step (TypeExportFilename nbsp) init)).
  change (white_text (nbsp +:+ "")).
  constructor; [|constructor]. apply (bool_decide_eq_true_1 _). by vm_compute.
Defined.

(** ** Pending requests *)

Lemma pending_ok_ext w w' :
  requests (browser w') = requests (browser w) →
  pending (browser w') = pending (browser w) →
  pending_ok w → pending_ok w'.
Proof. unfold pending_ok. intros -> ->. done. Qed.

Lemma pending_ok_on_page f w : pending_ok w → pending_ok (on_page f w).
Proof. by apply pending_ok_ext. Qed.

Lemma pending_ok_on_state f w : pending_ok w → pending_ok (on_state f w).
Proof. by apply pending_ok_ext. Qed.

Lemma pending_ok_alert text w : pending_ok w → pending_ok (alert text w).
Proof. by apply pending_ok_ext. Qed.

Lemma pending_ok_console_error text w : pending_ok w → pending_ok (console_error text w).
Proof. by apply pending_ok_ext. Qed.

Lemma pending_ok_newEventSource b w : pending_ok w → pending_ok (newEventSource b w).
Proof. by apply pending_ok_ext. Qed.

Lemma pending_ok_close src w : pending_ok w → pending_ok (close src w).
Proof. by apply pending_ok_ext. Qed.

Lemma pending_ok_updatePreview w : pending_ok w → pending_ok (updatePreview w).
Proof.
  apply pending_ok_ext; unfold updatePreview, setTimeout, clearTimeout;
    repeat case_match; done.
Qed.

Lemma pending_ok_resumed req w :
  pending_ok w →
  pending_ok (on_browser (fun b => set_pending (delete req (pending b)) b) w).
Proof.
  intros Hok r k. cbn. intros Hk. apply Hok.
  apply lookup_delete_Some in Hk as [_ Hk]. done.
Qed.

Lemma pending_ok_fetch r k w : pending_ok w → matches k r → pending_ok (fetch r k w).
Proof.
  intros Hok Hm req k'. cbn. intros Hk.
  destruct (decide (length (requests (browser w)) = req)) as [<-|Hne].
  - rewrite lookup_insert_eq in Hk. injection Hk as <-. exists r. split; [|done].
    rewrite lookup_app_r by done. by rewrite Nat.sub_diag.
  - rewrite lookup_insert_ne in Hk by done. destruct (Hok req k' Hk) as (r' & Hr & ?).
    exists r'. split; [|done]. by apply lookup_app_l_Some.
Qed.

Ltac frame_pending :=
  repeat first
    [ eassumption
    | apply pending_ok_on_page | apply pending_ok_on_state
    | apply pending_ok_alert | apply pending_ok_console_error
    | apply pending_ok_newEventSource | apply pending_ok_close
    | apply pending_ok_updatePreview | apply pending_ok_resumed
    | apply pending_ok_fetch; [|done] ].

Lemma pending_ok_fired (due : list (positive * nat)) w :
  pending_ok w → pending_ok (foldl (fun w' _ => previewTimerFired w') w due).
Proof.
  revert w. induction due as [|t due IH]; intros w Hok; cbn [foldl]; [done|].
  apply IH. unfold previewTimerFired, showPreviewLoading. frame_pending.
Qed.

Lemma pending_ok_step e w : pending_ok w → pending_ok (step e w).
Proof.
  intros Hok. destruct e; cbn [step].
  12: { unfold elapse. apply pending_ok_fired. by eapply pending_ok_ext; [| |exact Hok]. }
  all: unfold_outer; repeat case_match; simplify_eq; frame_pending.
Qed.

Lemma pending_ok_reachable w : reachable w → pending_ok w.
Proof.
  induction 1; [|by apply pending_ok_step]. intros req k Hk. by vm_compute in Hk.
Qed.

Lemma old_kept_refl w : old_kept w w.
Proof. by split. Qed.

Lemma old_kept_ext w w1 w2 :
  requests (browser w2) = requests (browser w1) →
  pending (browser w2) = pending (browser w1) →
  old_kept w w1 → old_kept w w2.
Proof. unfold old_kept. intros -> ->. done. Qed.

Lemma old_kept_on_page w f w1 : old_kept w w1 → old_kept w (on_page f w1).
Proof. by apply old_kept_ext. Qed.
Lemma old_kept_on_state w f w1 : old_kept w w1 → old_kept w (on_state f w1).
Proof. by apply old_kept_ext. Qed.
Lemma old_kept_alert w text w1 : old_kept w w1 → old_kept w (alert text w1).
Proof. by apply old_kept_ext. Qed.
Lemma old_kept_console_error w text w1 : old_kept w w1 → old_kept w (console_error text w1).
Proof. by apply old_kept_ext. Qed.
Lemma old_kept_newEventSource w b w1 : old_kept w w1 → old_kept w (newEventSource b w1).
Proof. by apply old_kept_ext. Qed.
Lemma old_kept_updatePreview w w1 : old_kept w w1 → old_kept w (updatePreview w1).
Proof.
  apply old_kept_ext; unfold updatePreview, setTimeout, clearTimeout;
    repeat case_match; done.
Qed.

Lemma old_kept_fetch w r k w1 : old_kept w w1 → old_kept w (fetch r k w1).
Proof.
  intros [Hlen Hold]. split.
  - cbn. rewrite length_app. lia.
  - intros req Hreq. cbn. rewrite lookup_insert_ne by lia. by apply Hold.
Qed.

Ltac frame_old :=
  repeat first
    [ apply old_kept_refl
    | apply old_kept_on_page | apply old_kept_on_state
    | apply old_kept_alert | apply old_kept_console_error
    | apply old_kept_newEventSource | apply old_kept_updatePreview
    | apply old_kept_fetch ].

Lemma old_kept_resume k r w : old_kept w (resume k r w).
Proof. unfold_outer; repeat case_match; simplify_eq; frame_old. Qed.

Lemma settle_consumes w req k r :
  pending_ok w →
  pending (browser w) !! req = Some k →
  answers k r = true →
  pending (browser (step (Settle req r) w)) !! req = None ∧
  ∀ req', req' ≠ req → req' < length (requests (browser w)) →
          pending (browser (step (Settle req r) w)) !! req' = pending (browser w) !! req'.
Proof.
  intros Hok Hk Ha. cbn [step]. unfold settle. rewrite Hk, Ha.
  destruct (Hok req k Hk) as (r0 & Hr0 & _). apply lookup_lt_Some in Hr0.
  destruct (old_kept_resume k r
              (on_browser (fun b => set_pending (delete req (pending b)) b) w))
    as [_ Hold].
  split.
  - rewrite Hold by done. cbn. apply lookup_delete_eq.
  - intros req' Hne Hlt. rewrite Hold by done. cbn. by apply lookup_delete_ne.
Qed.

(** ** Deleting files *)

Lemma filter_ids_absent fileId (fs : list UploadedFile) :
  filter (fun f => file_id f ≠ fileId) (filter (fun f => file_id f ≠ fileId) fs)
  = filter (fun f => file_id f ≠ fileId) fs.
Proof.
  induction fs as [|f fs IH]; [done|].
  destruct (decide (file_id f ≠ fileId)) as [Hf|Hf].
  - rewrite (filter_cons_True _ f fs Hf), (filter_cons_True _ f _ Hf). by rewrite IH.
  - by rewrite (filter_cons_False _ f fs Hf).
Qed.

Lemma updatePreview_files w : files (state (updatePreview w)) = files (state w).
Proof.
  unfold updatePreview, setTimeout, clearTimeout. repeat case_match; simplify_eq; done.
Qed.

Lemma deleteFile_settled_files fileId w :
  files (state (deleteFile_settled fileId Deleted w))
  = filter (fun f => file_id f ≠ fileId) (files (state w)).
Proof.
  unfold deleteFile_settled, updateUI, updateFileList. cbn zeta.
  repeat case_match; try done.
  etransitivity; [apply (updatePreview_files _)|done].
Qed.

Lemma deleteFile_settled_other fileId w :
  activeFileId (state w) ≠ Some fileId →
  deleteFile_settled fileId Deleted w
  = updateUI (on_state (fun s =>
                set_files (filter (fun f => file_id f ≠ fileId) (files s)) s) w).
Proof.
  intros Hne. unfold deleteFile_settled. cbn zeta.
  destruct (decide _) as [Heq|]; [|done]. by destruct Hne.
Qed.

(** X9. Deleting is idempotent.  When two deletions of the same file are
    pending (the delete button was clicked twice), the second one to complete
    changes neither the registry nor the active file, the cached baseline,
    the timers or the request log: all is as the first left it.  A deletion
    whose request is rejected changes nothing but the console. *)
Theorem delete_twice w req1 req2 fileId :
  reachable w →
  req1 ≠ req2 →
  pending (browser w) !! req1 = Some (KDelete fileId) →
  pending (browser w) !! req2 = Some (KDelete fileId) →
  let w1 := step (Settle req1 Deleted) w in
  let w2 := step (Settle req2 Deleted) w1 in
  (fileId ∉ ids w1) ∧
  files (state w2) = files (state w1) ∧
  active w2 = active w1 ∧
  beforeImageUrl (state w2) = beforeImageUrl (state w1) ∧
  timers (browser w2) = timers (browser w1) ∧
  requests (browser w2) = requests (browser w1) ∧
  (∀ message,
     state (step (Settle req1 (Rejected message)) w) = state w ∧
     page (step (Settle req1 (Rejected message)) w) = page w ∧
     console (browser (step (Settle req1 (Rejected message)) w))
     = console (browser w) ++ ["Delete failed:"]).
Proof.
  intros Hw Hne Hp1 Hp2 w1 w2.
  assert (Hrej : ∀ message,
     state (step (Settle req1 (Rejected message)) w) = state w ∧
     page (step (Settle req1 (Rejected message)) w) = page w ∧
     console (browser (step (Settle req1 (Rejected message)) w))
     = console (browser w) ++ ["Delete failed:"]).
  { intros message. cbn [step]. unfold settle. rewrite Hp1. done. }
  pose proof (pending_ok_reachable w Hw) as Hok.
  destruct (Hok req2 _ Hp2) as (r2 & Hr2 & _). apply lookup_lt_Some in Hr2.
  destruct (settle_consumes w req1 (KDelete fileId) Deleted Hok Hp1 eq_refl) as [_ Hothers].
  assert (Hp2' : pending (browser w1) !! req2 = Some (KDelete fileId)).
  { subst w1. rewrite Hothers; done. }
  assert (Hfiles1 : files (state w1) = filter (fun f => file_id f ≠ fileId) (files (state w))).
  { subst w1. cbn [step]. unfold settle. rewrite Hp1. cbn [answers resume].
    etransitivity; [apply deleteFile_settled_files|done]. }
  assert (Habsent : fileId ∉ ids w1).
  { unfold ids. rewrite Hfiles1. intros [_ ?]%elem_of_ids_filter. done. }
  assert (Hact : active w1 ≠ Some fileId).
  { intros Ha. apply Habsent.
    destruct (registry_ok_reachable w1) as [Hreg _]; [by constructor|]. by apply Hreg. }
  split; [done|].
  clear Hothers Hp1 Hp2 Hok Hr2. clearbody w1.
  assert (Hw2 : w2 = updateUI (on_state (fun s =>
                       set_files (filter (fun f => file_id f ≠ fileId) (files s)) s)
                     (on_browser (fun b => set_pending (delete req2 (pending b)) b) w1))).
  { subst w2. cbn [step]. unfold settle. rewrite Hp2'. cbn [answers resume].
    by apply deleteFile_settled_other. }
  clearbody w2. subst w2. unfold active, updateUI, updateFileList.
  split; [cbn; rewrite Hfiles1; apply filter_ids_absent|].
  do 4 (split; [done|]). exact Hrej.
Qed.

Lemma delete_twice_witness :
  let w := run (two_files ++ [ClickDelete "f2"; ClickDelete "f2"]) init in
  files (state (run [Settle 2 Deleted; Settle 3 Deleted] w))
  = files (state (run [Settle 2 Deleted] w)).
Proof.
  intros w.
  destruct (delete_twice w 2 3 "f2") as (_ & Hfiles & _).
  - apply reachable_run. constructor.
  - done.
  - by vm_compute.
  - by vm_compute.
  - exact Hfiles.
Defined.

(** ** What is shown *)

Lemma updateSliders_views names st p :
  comparisonContainer_display (updateSliders names st p).1 = comparisonContainer_display p ∧
  previewImage_display (updateSliders names st p).1 = previewImage_display p.
Proof.
  revert p. induction names as [|n names IH]; intros p; [done|].
  rewrite updateSliders_cons. cbv zeta.
  destruct (st !! slider_name n) as [[| | x | | |]|]; try done.
  destruct (IH (set_valueDisplay (<[slider_name n:=x]> (valueDisplay
               (set_sliderValue (<[slider_name n:=Some (JNum x)]> (sliderValue p)) p)))
               (set_sliderValue (<[slider_name n:=Some (JNum x)]> (sliderValue p)) p)))
    as [-> ->]. done.
Qed.

Lemma fired_views (due : list (positive * nat)) w :
  comparisonContainer_display (page (foldl (fun w' _ => previewTimerFired w') w due))
  = comparisonContainer_display (page w) ∧
  previewImage_display (page (foldl (fun w' _ => previewTimerFired w') w due))
  = previewImage_display (page w).
Proof.
  revert w. induction due as [|t due IH]; intros w; cbn [foldl]; [done|].
  destruct (IH (previewTimerFired w)) as [-> ->]. done.
Qed.

Ltac sliders_views :=
  repeat match goal with
  | H : updateSliders ?names ?st ?pg = (?p, ?t) |- _ =>
      let Hc := fresh "Hc" in let Hp := fresh "Hp" in
      destruct (updateSliders_views names st pg) as [Hc Hp]; rewrite H in Hc, Hp;
      cbn [fst] in Hc, Hp; unfold_projections; rewrite ?Hc, ?Hp in *; clear H
  end.

Lemma views_ok_step e w : views_ok w → views_ok (step e w).
Proof.
  unfold views_ok. intros Hv. destruct e; cbn [step].
  12: { destruct (fired_views
          (filter (fun t => t.2 ≤ clock (browser w) + ms) (timers (browser w)))
          (on_browser (fun b => set_timers
             (filter (fun t => ¬ t.2 ≤ clock (browser w) + ms) (timers b))
             (set_clock (clock (browser w) + ms) b)) w)) as [Hc Hp].
        unfold elapse. rewrite Hc, Hp, fired_state. exact Hv. }
  all: crush; cbn in *; unfold_projections; sliders_views; try done.
  all: try (by apply Hv).
  all: try (destruct Hv as [? ?]; [done|]; split; congruence).
  all: try (split; [done|];
            repeat match goal with
                   | H : _ && _ = true |- _ => apply andb_true_iff in H as [? ?]
                   end; done).
  all: destruct Hv as [? _]; [done|]; split; [done|].
  all: match goal with H : _ && _ = true |- _ => by apply andb_true_iff in H as [? ?] end.
Qed.

Lemma views_ok_reachable w : reachable w → views_ok w.
Proof. induction 1; [done|by apply views_ok_step]. Qed.

(** X10. In every reachable state the comparison view is shown only in
    compare mode and with the plain preview image hidden: the two are never
    shown together. *)
Theorem comparison_excludes_preview w :
  reachable w →
  (comparisonContainer_display (page w) = display_block →
   previewImage_display (page w) = display_none ∧ compareMode (state w) = true) ∧
  ¬ (comparisonContainer_display (page w) = display_block ∧
     previewImage_display (page w) = display_block).
Proof.
  intros Hw. pose proof (views_ok_reachable w Hw) as Hv. split; [exact Hv|].
  intros [Hc Hp]. destruct (Hv Hc) as [Hn _]. congruence.
Qed.

Lemma comparison_excludes_preview_witness :
  let w := run (compare_cached ++ [Elapse 300; Settle 2 (Image true 9)]) init in
  comparisonContainer_display (page w) = display_block ∧
  previewImage_display (page w) = display_none.
Proof.
  intros w. assert (Hc : comparisonContainer_display (page w) = display_block)
    by (by vm_compute).
  split; [done|].
  destruct (comparison_excludes_preview w) as [Hv _].
  - apply reachable_run. constructor.
  - by destruct (Hv Hc).
Defined.

(** ** More on the debounce timer *)

Lemma updatePreview_before w :
  beforeImageUrl (state (updatePreview w)) = beforeImageUrl (state w).
Proof.
  unfold updatePreview, setTimeout, clearTimeout.
  repeat case_match; simplify_eq; done.
Qed.

Lemma selectFile_armed fileId w :
  timers_ok w → truthy (Some fileId) = true →
  armed (selectFile fileId w) ∧
  requests (browser (selectFile fileId w)) = requests (browser w) ∧
  settings (state (selectFile fileId w)) = settings (state w) ∧
  active (selectFile fileId w) = Some fileId ∧
  beforeImageUrl (state (selectFile fileId w)) = None.
Proof.
  intros Hok Hid. unfold selectFile, updateFileList.
  match goal with |- armed (on_page _ (updatePreview ?w1)) ∧ _ =>
    destruct (updatePreview_armed w1) as (Harm & Hr & _ & Hs & Hact);
    [eapply timers_ok_ext; [| |exact Hok]; reflexivity|exact Hid|]
  end.
  split; [exact Harm|]. split; [exact Hr|]. split; [exact Hs|]. split; [exact Hact|].
  etransitivity; [apply (updatePreview_before _)|done].
Qed.

Lemma slider_input_fileList name value w :
  fileList (page (slider_input name value w)) = fileList (page w).
Proof. crush. Qed.

(** X11. Selecting another file inside the quiet window restarts the
    debounce timer: a slider move followed, less than 300 ms later, by a click
    on the name of a rendered file (with a non-empty id) issues no request for
    the file that was active; 300 ms after the click exactly one preview
    request is issued, for the newly selected file and with the moved
    settings, and the cached baseline is empty. *)
Theorem select_restarts_debounce w name value gap fileId quiet :
  reachable w →
  truthy (active w) = true →
  rendered fileId w = true →
  truthy (Some fileId) = true →
  gap < 300 →
  300 ≤ quiet →
  let w' := run [SliderInput name value; Elapse gap; ClickFilename fileId; Elapse quiet] w in
  requests (browser w') =
    requests (browser w) ++
    [GET_preview (Some fileId) (<[slider_name name := JNum value]> (settings (state w)))] ∧
  active w' = Some fileId ∧
  beforeImageUrl (state w') = None.
Proof.
  intros Hw Ha Hr Hid Hgap Hquiet. cbn [run step].
  destruct (slider_input_armed name value w (timers_ok_reachable w Hw) Ha)
    as ((id & Ht & Hd) & Hreq & Hset & Hact).
  rewrite (elapse_early _ _ _ _ Ht) by lia.
  set (w2 := on_browser _ (slider_input name value w)).
  assert (Hr2 : rendered fileId w2 = true).
  { unfold rendered in *. subst w2. cbn [page on_browser].
    by rewrite slider_input_fileList. }
  rewrite Hr2.
  destruct (selectFile_armed fileId w2) as ((id3 & Ht3 & Hd3) & Hreq3 & Hset3 & Hact3 & Hb3);
    [right; by exists id, (clock (browser (slider_input name value w)) + 300)|done|].
  split; [|split].
  - rewrite (elapse_fires _ _ _ _ Ht3) by lia. rewrite Hreq3, Hset3, Hact3.
    f_equal; [exact Hreq|]. f_equal. f_equal. exact Hset.
  - unfold active. by rewrite elapse_state.
  - by rewrite elapse_state.
Qed.

Lemma select_restarts_debounce_witness :
  let w := run two_files init in
  let w' := run [SliderInput warmth 0.5; Elapse 100; ClickFilename "f2"; Elapse 300] w in
  requests (browser w') =
  requests (browser w) ++
  [GET_preview (Some "f2") (<["warmth" := JNum 0.5]> initialSettings)].
Proof.
  intros w w'.
  destruct (select_restarts_debounce w warmth 0.5%float 100 "f2" 300) as (Hreq & _).
  - apply reachable_run. constructor.
  - by vm_compute.
  - by vm_compute.
  - done.
  - lia.
  - lia.
  - etransitivity; [exact Hreq|]. by vm_compute.
Defined.

Lemma filter_all_removed fileId (fs : list UploadedFile) :
  Forall (fun f => file_id f = fileId) fs →
  filter (fun f => file_id f ≠ fileId) fs = [].
Proof.
  induction 1 as [|f fs Hf _ IH]; [done|].
  rewrite filter_cons_False; [done|]. by intros ?.
Qed.

(** X12. [deleteFile] does not cancel the debounce timer.  When the last
    file is deleted while a timer is live, the active file becomes [null] and
    the timer still fires when it is due: a preview request that names no
    file (the URL [/preview/null]) is issued with the current settings. *)
Theorem delete_keeps_timer w req fileId id due ms :
  timers (browser w) = [(id, due)] →
  pending (browser w) !! req = Some (KDelete fileId) →
  active w = Some fileId →
  Forall (fun f => file_id f = fileId) (files (state w)) →
  due ≤ clock (browser w) + ms →
  let w1 := step (Settle req Deleted) w in
  let w2 := step (Elapse ms) w1 in
  files (state w1) = [] ∧
  active w1 = None ∧
  timers (browser w1) = [(id, due)] ∧
  requests (browser w1) = requests (browser w) ∧
  requests (browser w2) = requests (browser w) ++ [GET_preview None (settings (state w))].
Proof.
  intros Ht Hp Ha Hall Hdue w1 w2.
  assert (H1 : files (state w1) = [] ∧ active w1 = None ∧
               timers (browser w1) = [(id, due)] ∧
               requests (browser w1) = requests (browser w) ∧
               clock (browser w1) = clock (browser w) ∧
               settings (state w1) = settings (state w)).
  { subst w1. unfold active in *. cbn [step]. unfold settle. rewrite Hp. cbn [answers].
    pose proof (filter_all_removed fileId _ Hall) as Hnil.
    crush; rewrite ?Hnil in *; simplify_eq; done. }
  destruct H1 as (Hf & Hact & Ht1 & Hr1 & Hc1 & Hs1).
  split; [done|]. split; [done|]. split; [done|]. split; [done|].
  subst w2. cbn [step]. rewrite (elapse_fires _ _ _ _ Ht1) by (rewrite Hc1; lia).
  by rewrite Hr1, Hact, Hs1.
Qed.

Lemma delete_keeps_timer_witness :
  let w := run (one_file ++ [ClickDelete "f1"]) init in
  requests (browser (run [Settle 1 Deleted; Elapse 300] w))
  = requests (browser w) ++ [GET_preview None initialSettings].
Proof.
  intros w.
  destruct (delete_keeps_timer w 1 "f1" 1%positive 300 300) as (_ & _ & _ & _ & Hreq).
  - by vm_compute.
  - by vm_compute.
  - by vm_compute.
  - repeat constructor.
  - by vm_compute.
  - etransitivity; [exact Hreq|]. by vm_compute.
Defined.

(** X13. Without an active file the sliders only edit the settings: from a
    state with no active file and no live timer, any sequence of slider moves
    and waits arms no timer and issues no request, and the settings hold
    every move. *)
Theorem idle_moves_fetch_nothing (moves : list Idle) : ∀ w,
  truthy (active w) = false →
  timers (browser w) = [] →
  let w' := run (map idle_event moves) w in
  requests (browser w') = requests (browser w) ∧
  timers (browser w') = [] ∧
  pending (browser w') = pending (browser w) ∧
  settings (state w') = foldl idle_settings (settings (state w)) moves ∧
  active w' = active w.
Proof.
  induction moves as [|[name value|ms] moves IH]; intros w Ha Ht; [done| |].
  - cbn [map run idle_event foldl idle_settings].
    assert (Hstep : requests (browser (step (SliderInput name value) w)) = requests (browser w) ∧
                    timers (browser (step (SliderInput name value) w)) = timers (browser w) ∧
                    pending (browser (step (SliderInput name value) w)) = pending (browser w) ∧
                    settings (state (step (SliderInput name value) w))
                    = <[slider_name name := JNum value]> (settings (state w)) ∧
                    active (step (SliderInput name value) w) = active w).
    { unfold active in *. crush; rewrite Ha in *; done. }
    destruct Hstep as (Hr & Ht' & Hp & Hs & Hact).
    destruct (IH (step (SliderInput name value) w)) as (IHr & IHt & IHp & IHs & IHa);
      [by rewrite Hact|by rewrite Ht'|].
    cbv zeta in *. by rewrite IHr, IHp, IHs, IHa, Hr, Hp, Hs, Hact.
  - cbn [map run idle_event foldl idle_settings step].
    rewrite (elapse_empty _ _ Ht).
    apply (IH (on_browser (set_clock (clock (browser w) + ms)) w)); done.
Qed.

Lemma idle_moves_fetch_nothing_witness :
  let w' := run [SliderInput exposure 1.5; Elapse 1000; SliderInput warmth 0.25] init in
  requests (browser w') = [] ∧ settings (state w') !! "exposure" = Some (JNum 1.5).
Proof.
  intros w'.
  destruct (idle_moves_fetch_nothing
              [IdleMove exposure 1.5; IdleWait 1000; IdleMove warmth 0.25] init)
    as (Hr & _ & _ & Hs & _); [done|done|].
  split; [exact Hr|]. etransitivity; [exact (f_equal (fun m => m !! "exposure") Hs)|].
  by vm_compute.
Defined.

(** ** Progress events before the terminal one *)

Lemma progress_event_effect src data w :
  is_open src w = true →
  outcome data = Progressed →
  step (SseMessage src data) w = on_page (set_progressBar (bar_of data)) w.
Proof.
  intros Ho Hd. cbn [step]. rewrite Ho. unfold onmessage. unfold outcome in Hd.
  destruct (truthy (pe_error data)); [done|]. by destruct (pe_done data).
Qed.

(** X14. Progress events that carry neither an error nor [done] only move
    the progress bar: after any sequence of them on an open subscription the
    subscription is still open, the bar shows the last event (whatever the
    earlier ones said, also when the count went down), and state, requests,
    alerts and the download section are untouched.  A [done] event that
    follows closes the subscription and lists its results, and leaves the
    progress section as it was. *)
Theorem progress_shows_last_event src (ds : list ProgressEvent) : ∀ w,
  is_open src w = true →
  Forall (fun d => outcome d = Progressed) ds →
  let w' := run (map (SseMessage src) ds) w in
  is_open src w' = true ∧
  progressBar (page w') = default (progressBar (page w)) (bar_of <$> last ds) ∧
  state w' = state w ∧
  browser w' = browser w ∧
  downloadLinks (page w') = downloadLinks (page w) ∧
  downloadSection_display (page w') = downloadSection_display (page w) ∧
  progressSection_display (page w') = progressSection_display (page w) ∧
  ∀ d, outcome d = Complete →
       let w'' := step (SseMessage src d) w' in
       is_closed src w'' ∧
       progressBar (page w'') = bar_of d ∧
       downloadLinks (page w'') = pe_results d ∧
       downloadSection_display (page w'') = display_block ∧
       progressSection_display (page w'') = progressSection_display (page w) ∧
       alerts (browser w'') = alerts (browser w).
Proof.
  induction ds as [|d ds IH]; intros w Ho Hall.
  - cbn [map run]. repeat (split; [done|]). intros d Hd. cbn zeta.
    cbn [step]. rewrite Ho. unfold onmessage. unfold outcome in Hd.
    destruct (truthy (pe_error d)); [done|]. destruct (pe_done d); [|done].
    split; [|done].
    eapply is_closed_ext; [|apply (close_closes src w Ho)]. done.
  - apply Forall_cons in Hall as [Hd Hall].
    cbn [map run]. rewrite (progress_event_effect _ _ _ Ho Hd).
    destruct (IH (on_page (set_progressBar (bar_of d)) w) Ho Hall)
      as (IHo & IHbar & IHs & IHb & IHl & IHds & IHps & IHdone).
    split; [exact IHo|]. split.
    { etransitivity; [exact IHbar|]. rewrite (last_cons d ds).
      by destruct (last ds). }
    split; [exact IHs|]. split; [exact IHb|]. split; [exact IHl|].
    split; [exact IHds|]. split; [exact IHps|]. exact IHdone.
Qed.

Lemma progress_shows_last_event_witness :
  let w := run export_running init in
  let d1 := mkProgress None 2 3 "processing" (Some "b.jpg") false [] in
  let d2 := mkProgress None 1 3 "processing" (Some "a.jpg") false [] in
  let w' := run [SseMessage 0 d1; SseMessage 0 d2] w in
  is_open 0 w' = true ∧ progressBar (page w') = bar_of d2 ∧
  downloadLinks (page (step (SseMessage 0 done_event) w')) = pe_results done_event.
Proof.
  intros w d1 d2 w'.
  destruct (progress_shows_last_event 0 [d1; d2] w) as (Ho & Hbar & _ & _ & _ & _ & _ & Hdone).
  - by vm_compute.
  - by repeat constructor.
  - split; [exact Ho|]. split; [exact Hbar|].
    destruct (Hdone done_event) as (_ & _ & Hl & _); [done|exact Hl].
Defined.

(** ** A baseline that could not be loaded *)

Lemma reenter_compare_fetches w :
  truthy (active w) = true → beforeImageUrl (state w) = None →
  requests (browser (run [CompareToggle false; CompareToggle true] w)) =
  requests (browser w) ++ [GET_preview (active w) defaultSettings].
Proof.
  unfold active. intros Ha Hb. cbn [run step]. crush.
  all: try (by destruct (truthy _)).
  all: rewrite Hb in *; done.
Qed.

(** X15. A baseline response that is not a success (a non-success status,
    or a rejected fetch) fills neither the cache nor the before image: the
    comparison keeps whatever before image it had, the loading indicator is
    hidden, nothing is alerted, and only a rejected fetch is logged.  The
    comparison view is shown all the same when compare mode is on and a file
    is active.  Since the cache is still empty, entering compare mode again
    repeats the baseline fetch. *)
Theorem failed_baseline_not_cached w req caller r :
  pending (browser w) !! req = Some (KBefore caller) →
  (∃ blob, r = Image false blob) ∨ (∃ message, r = Rejected message) →
  let w' := step (Settle req r) w in
  beforeImageUrl (state w') = beforeImageUrl (state w) ∧
  beforeImage_src (page w') = beforeImage_src (page w) ∧
  previewLoading_display (page w') = display_none ∧
  alerts (browser w') = alerts (browser w) ∧
  console (browser w') =
    console (browser w) ++
    match r with Rejected _ => ["Failed to load before image:"] | _ => [] end ∧
  (compareMode (state w) = true → truthy (active w) = true →
   comparisonContainer_display (page w') = display_block ∧
   (beforeImageUrl (state w) = None →
    requests (browser (run [CompareToggle false; CompareToggle true] w')) =
    requests (browser w) ++ [GET_preview (active w) defaultSettings])).
Proof.
  intros Hp Hr w'.
  assert (Hstep : step (Settle req r) w =
                  loadBeforeImage_settled caller r
                    (on_browser (fun b => set_pending (delete req (pending b)) b) w)).
  { cbn [step]. unfold settle. rewrite Hp. by destruct Hr as [[? ->]|[? ->]]. }
  assert (Hkeep : beforeImageUrl (state w') = beforeImageUrl (state w) ∧
                  beforeImage_src (page w') = beforeImage_src (page w) ∧
                  previewLoading_display (page w') = display_none ∧
                  alerts (browser w') = alerts (browser w) ∧
                  console (browser w') =
                    console (browser w) ++
                    match r with Rejected _ => ["Failed to load before image:"] | _ => [] end ∧
                  activeFileId (state w') = activeFileId (state w) ∧
                  requests (browser w') = requests (browser w)).
  { subst w'. rewrite Hstep. clear Hstep Hp.
    destruct Hr as [[? ->]|[? ->]]; destruct caller; crush; by rewrite ?app_nil_r. }
  destruct Hkeep as (Hb & Hsrc & Hl & Hal & Hco & Hact & Hreq).
  do 5 (split; [done|]).
  intros Hc Ha. split.
  - subst w'. rewrite Hstep. clear Hstep Hp Hb Hsrc Hl Hal Hco Hact Hreq.
    unfold active in Ha.
    destruct Hr as [[? ->]|[? ->]]; destruct caller; crush;
      rewrite ?Hc, ?Ha in *; done.
  - intros Hnone.
    rewrite (reenter_compare_fetches w'); unfold active; rewrite ?Hact, ?Hreq; try done.
    by rewrite Hb.
Qed.

Lemma failed_baseline_not_cached_witness :
  let w := run (one_file ++ [CompareToggle true]) init in
  let w' := step (Settle 1 (Image false 0)) w in
  beforeImageUrl (state w') = None ∧
  comparisonContainer_display (page w') = display_block ∧
  requests (browser (run [CompareToggle false; CompareToggle true] w')) =
  requests (browser w) ++ [GET_preview (Some "f1") defaultSettings].
Proof.
  intros w w'.
  destruct (failed_baseline_not_cached w 1 FromCompareToggle (Image false 0))
    as (Hb & _ & _ & _ & _ & Hc).
  - by vm_compute.
  - left. by exists 0.
  - destruct Hc as (Hd & Hreq); [by vm_compute|by vm_compute|].
    split; [exact Hb|]. split; [exact Hd|]. apply Hreq. by vm_compute.
Defined.

(** ** Comparisons of numbers *)

Lemma SFcompare_antisym x y :
  SFcompare y x = option_map CompOpp (SFcompare x y).
Proof.
  destruct x as [sx|sx| |sx mx ex], y as [sy|sy| |sy my ey]; cbn; try done;
    try (by destruct sx); try (by destruct sy); try (by destruct sx, sy).
  destruct sx, sy; cbn; try done.
  - rewrite (Z.compare_antisym ex ey). destruct (ex ?= ey)%Z; cbn; try done.
    rewrite (Pos.compare_cont_antisym mx my Eq). cbn.
    by rewrite ?CompOpp_involutive.
  - rewrite (Z.compare_antisym ex ey). destruct (ex ?= ey)%Z; cbn; try done.
    rewrite (Pos.compare_cont_antisym mx my Eq). cbn.
    by rewrite ?CompOpp_involutive.
Qed.

Lemma SFcompare_None x y :
  SFcompare x y = None → SFcompare x x = None ∨ SFcompare y y = None.
Proof.
  destruct x as [sx|sx| |sx mx ex], y as [sy|sy| |sy my ey]; cbn; try done;
    try (by left); try (by right).
Qed.

Lemma float_ltb_leb (a b : float) : (a <? b)%float = true → (a <=? b)%float = true.
Proof.
  rewrite FloatAxioms.ltb_spec, FloatAxioms.leb_spec. unfold SFltb, SFleb.
  by destruct (SFcompare _ _) as [[]|].
Qed.

Lemma float_ltb_not_leb (a b : float) : (a <? b)%float = true → (b <=? a)%float = false.
Proof.
  rewrite FloatAxioms.ltb_spec, FloatAxioms.leb_spec. unfold SFltb, SFleb.
  rewrite (SFcompare_antisym (Prim2SF a) (Prim2SF b)).
  by destruct (SFcompare _ _) as [[]|].
Qed.

Lemma float_ltb_asym (a b : float) : (a <? b)%float = true → (b <? a)%float = false.
Proof.
  rewrite !FloatAxioms.ltb_spec. unfold SFltb.
  rewrite (SFcompare_antisym (Prim2SF a) (Prim2SF b)).
  by destruct (SFcompare _ _) as [[]|].
Qed.

Lemma float_not_ltb_eqb (a b : float) :
  is_nan a = false → is_nan b = false →
  (a <? b)%float = false → (b <? a)%float = false → (a =? b)%float = true.
Proof.
  unfold is_nan. rewrite !FloatAxioms.ltb_spec, !FloatAxioms.eqb_spec. unfold SFltb, SFeqb.
  rewrite (SFcompare_antisym (Prim2SF a) (Prim2SF b)).
  intros Ha Hb.
  destruct (SFcompare (Prim2SF a) (Prim2SF b)) as [[]|] eqn:Hc; cbn; try done.
  destruct (SFcompare_None _ _ Hc) as [H|H]; rewrite H in *; done.
Qed.

Lemma float_eqb_leb (a b : float) : (a =? b)%float = true → (a <=? b)%float = true.
Proof.
  rewrite FloatAxioms.eqb_spec, FloatAxioms.leb_spec. unfold SFeqb, SFleb.
  by destruct (SFcompare _ _) as [[]|].
Qed.

Lemma float_eqb_sym (a b : float) : (a =? b)%float = true → (b =? a)%float = true.
Proof.
  rewrite !FloatAxioms.eqb_spec. unfold SFeqb.
  rewrite (SFcompare_antisym (Prim2SF a) (Prim2SF b)).
  by destruct (SFcompare _ _) as [[]|].
Qed.

Lemma float_eqb_refl (a : float) : is_nan a = false → (a =? a)%float = true.
Proof. unfold is_nan. by destruct (a =? a)%float. Qed.

Lemma clamp_cases v :
  is_nan v = false →
  ((100 <? v)%float = true ∧ clamp v = 100%float) ∨
  ((100 <? v)%float = false ∧ (0 <? v)%float = true ∧ clamp v = v ∧
   (v <=? 100)%float = true) ∨
  ((100 <? v)%float = false ∧ (0 <? v)%float = false ∧ clamp v = 0%float).
Proof.
  intros Hv. unfold clamp, Math_min. rewrite Hv.
  change (is_nan 100) with false. cbn [orb].
  destruct (100 <? v)%float eqn:H100.
  { left. split; [done|]. reflexivity. }
  right.
  assert (Hm : ∃ m, (if (v <? 100)%float then v else if get_sign 100 then 100%float else v) = m
                    ∧ m = v) by (change (get_sign 100) with false; destruct (v <? 100)%float; eauto).
  destruct Hm as (m & -> & ->).
  unfold Math_max. rewrite Hv. change (is_nan 0) with false. cbn [orb].
  destruct (0 <? v)%float eqn:H0.
  - left. do 3 (split; [done|]).
    destruct (v <? 100)%float eqn:Hlt; [by apply float_ltb_leb|].
    by apply float_eqb_leb, float_not_ltb_eqb.
  - right. do 2 (split; [done|]).
    change (get_sign 0) with false. by destruct (v <? 0)%float.
Qed.

(** X16. While dragging, a move with a usable pointer position writes the
    position as a percentage clamped to the range 0 to 100: the written
    number is [NaN] exactly when the computed ratio is [NaN] (a container of
    width 0 with the pointer on its left edge); otherwise it lies between 0
    and 100, it is 100 for a ratio above 100, 0 for a ratio below 0, and the
    ratio itself in between.  Flag and cursor are untouched. *)
Theorem drag_percent_clamped e rect s cx :
  isDragging s = true →
  pointer_x e = Some cx →
  let v := drag_ratio cx rect in
  ∃ p, handleDrag e rect s = mkSlide true (body_cursor s) (Some p) ∧
       is_nan p = is_nan v ∧
       (is_nan v = false →
        (0 <=? p)%float = true ∧ (p <=? 100)%float = true ∧
        ((100 <? v)%float = true → p = 100%float) ∧
        ((v <? 0)%float = true → p = 0%float) ∧
        ((0 <=? v)%float = true → (v <=? 100)%float = true → (p =? v)%float = true)).
Proof.
  intros Hd Hx v. exists (clamp v). unfold handleDrag. rewrite Hd, Hx. cbn [negb].
  split; [done|].
  destruct (is_nan v) eqn:Hv.
  { split; [|done]. unfold clamp, Math_min. rewrite Hv, orb_true_r. reflexivity. }
  destruct (clamp_cases v Hv) as [(H100 & ->)|[(H100 & H0 & -> & Hle)|(H100 & H0 & ->)]].
  - split; [reflexivity|]. intros _. split; [reflexivity|]. split; [reflexivity|].
    split; [done|]. split.
    + intros Hlt. pose proof (float_ltb_asym _ _ Hlt) as Hn.
      exfalso. clear -H100 Hlt Hv.
      (* v < 0 and 100 < v *)
      revert Hlt H100. rewrite !FloatAxioms.ltb_spec. unfold SFltb.
      let c := eval vm_compute in (Prim2SF 0) in change (Prim2SF 0) with c.
      let c := eval vm_compute in (Prim2SF 100) in change (Prim2SF 100) with c.
      destruct (Prim2SF v) as [[]|[]| |[] m e]; cbn; done.
    + intros _ Hle. by rewrite (float_ltb_not_leb _ _ H100) in Hle.
  - split; [done|]. intros _. split; [by apply float_ltb_leb|]. split; [done|].
    split; [intros; congruence|]. split.
    + intros Hlt. by rewrite (float_ltb_asym _ _ Hlt) in H0.
    + intros _ _. by apply float_eqb_refl.
  - split; [reflexivity|]. intros _. split; [reflexivity|]. split; [reflexivity|].
    split; [intros; congruence|]. split; [done|].
    intros Hge _. destruct (v <? 0)%float eqn:Hlt.
    + by rewrite (float_ltb_not_leb _ _ Hlt) in Hge.
    + apply float_eqb_sym. by apply float_not_ltb_eqb.
Qed.

Lemma drag_percent_clamped_witness :
  ∃ p, handleDrag (Mouse 150) (mkRect 100 200) (mkSlide true (Some "ew-resize") None)
       = mkSlide true (Some "ew-resize") (Some p) ∧ (p =? 25)%float = true.
Proof.
  destruct (drag_percent_clamped (Mouse 150) (mkRect 100 200)
              (mkSlide true (Some "ew-resize") None) 150%float)
    as (p & Hp & _ & Hr); [done|done|].
  exists p. split; [exact Hp|].
  destruct Hr as (_ & _ & _ & _ & Heq); [done|].
  by apply Heq.
Defined.

Lemma moves_without_drag (moves : list DragEvent) s :
  isDragging s = false →
  Forall (fun e => is_move e = true) moves →
  drag_run moves s = s.
Proof.
  intros Hd Hall. revert s Hd.
  induction Hall as [|e moves He _ IH]; intros s Hd; [done|].
  unfold drag_run in *. cbn [foldl].
  assert (Hs : drag_step e s = s).
  { destruct e; try done; cbn; unfold handleDrag; by rewrite Hd. }
  rewrite Hs. by apply IH.
Qed.

(** X17. The position of the comparison slider has two writers.
    [updateComparisonView] puts it back to the middle.  Of the drag listeners
    only a move made while dragging that carries a usable pointer position
    writes it: a mouse move whose [clientX] is neither 0 nor [NaN], or a
    touch move with at least one touch.  In particular a mouse move at
    [clientX] 0 (the left edge of the viewport) and a touch move without
    touches change nothing at all, also while dragging: the expression
    [e.clientX || e.touches[0].clientX] throws. *)
Theorem slider_position_writers e s :
  (drag_percent (drag_step e s) ≠ drag_percent s →
   (e = ComparisonShown ∧ drag_percent (drag_step e s) = Some 50%float) ∨
   (isDragging s = true ∧
    ∃ cx rect,
      drag_percent (drag_step e s) = Some (clamp (drag_ratio cx rect)) ∧
      ((e = MouseMove cx rect ∧ truthy_number cx = true) ∨
       (∃ rest, e = TouchMove (cx :: rest) rect)))) ∧
  (∀ cx rect, truthy_number cx = false → drag_step (MouseMove cx rect) s = s) ∧
  (∀ rect, drag_step (TouchMove [] rect) s = s).
Proof.
  split; [|split].
  - destruct e as [|cx rect| | |touches rect| |]; cbn [drag_step drag_percent]; try done.
    + unfold handleDrag, pointer_x.
      destruct (isDragging s); cbn [negb]; [|done].
      destruct (truthy_number cx) eqn:Hcx; [|done].
      intros _. right. split; [done|]. exists cx, rect. split; [done|]. by left.
    + unfold handleDrag, pointer_x.
      destruct (isDragging s); cbn [negb]; [|done].
      destruct touches as [|cx rest]; [done|].
      intros _. right. split; [done|]. exists cx, rect. split; [done|].
      right. by exists rest.
    + intros _. by left.
  - intros cx rect Hcx. cbn. unfold handleDrag, pointer_x. rewrite Hcx.
    by destruct (isDragging s).
  - intros rect. cbn. unfold handleDrag. by destruct (isDragging s).
Qed.

Lemma slider_position_writers_witness :
  let s := drag_run [MouseDown; MouseMove 150 (mkRect 100 200)] slide0 in
  isDragging s = true ∧
  drag_step (MouseMove 0 (mkRect 0 200)) s = s ∧
  drag_percent (drag_step ComparisonShown s) = Some 50%float.
Proof.
  intros s.
  destruct (slider_position_writers ComparisonShown s) as (Hw & Hzero & _).
  destruct Hw as [[_ Hreset]|[Hd _]]; [by vm_compute| |done].
  split; [by vm_compute|]. split; [by apply Hzero|exact Hreset].
Defined.

(** X18. The mouse and the touch listeners share the one flag
    [isDragging]: a [mouseup] or a [touchend] ends the drag whichever of
    [mousedown] and [touchstart] began it, and the moves that follow, of
    either kind, leave flag, cursor and slider position as the release left
    them.  Only [mousedown] and [mouseup] set the cursor, so a drag begun by
    the mouse and ended by [touchend] leaves the resize cursor on. *)
Theorem release_ends_drag release (moves : list DragEvent) s :
  is_release release = true →
  Forall (fun e => is_move e = true) moves →
  let s1 := drag_step release s in
  drag_run (release :: moves) s = s1 ∧
  isDragging s1 = false ∧
  drag_percent s1 = drag_percent s ∧
  body_cursor s1 = (if release is MouseUp then Some "" else body_cursor s).
Proof.
  intros Hr Hall s1.
  assert (Hd : isDragging s1 = false) by (subst s1; by destruct release).
  split; [|split; [done|by destruct release]].
  change (drag_run (release :: moves) s) with (drag_run moves s1).
  by apply moves_without_drag.
Qed.

Lemma release_ends_drag_witness :
  let rect := mkRect 100 200 in
  let s := drag_run [MouseDown; MouseMove 150 rect; TouchEnd; MouseMove 250 rect] slide0 in
  isDragging s = false ∧ body_cursor s = Some "ew-resize" ∧
  drag_percent s = drag_percent (drag_run [MouseDown; MouseMove 150 rect] slide0).
Proof.
  intros rect s.
  destruct (release_ends_drag TouchEnd [MouseMove 250 rect]
              (drag_run [MouseDown; MouseMove 150 rect] slide0))
    as (Hrun & Hd & Hp & Hc); [done|by repeat constructor|].
  change s with (drag_run [TouchEnd; MouseMove 250 rect]
                   (drag_run [MouseDown; MouseMove 150 rect] slide0)).
  rewrite Hrun. split; [exact Hd|]. split; [exact Hc|exact Hp].
Defined.
